(** * Crazy Eights: the game rules of [src/App.tsx], embedded and verified

    The data model follows [src/types.ts]; the operations follow the
    state updaters of [src/App.tsx] ([initGame], [drawCard], [playCard],
    [selectSuit], the computer opponent's effect) and the guards the render
    function puts in front of them. *)

From stdpp Require Import base decidable option list strings.

(** ** Data model ([types.ts]) *)

Inductive Suit := HEARTS | DIAMONDS | CLUBS | SPADES.

Inductive Rank :=
  | TWO | THREE | FOUR | FIVE | SIX | SEVEN | EIGHT
  | NINE | TEN | JACK | QUEEN | KING | ACE.

#[global] Instance Suit_eq_dec : EqDecision Suit.
Proof. solve_decision. Defined.

#[global] Instance Rank_eq_dec : EqDecision Rank.
Proof. solve_decision. Defined.

(** The string values of the two enums; they only matter for [Card.id]. *)
Definition suit_value (s : Suit) : string :=
  match s with
  | HEARTS => "hearts" | DIAMONDS => "diamonds"
  | CLUBS => "clubs" | SPADES => "spades"
  end.

Definition rank_value (r : Rank) : string :=
  match r with
  | TWO => "2" | THREE => "3" | FOUR => "4" | FIVE => "5" | SIX => "6"
  | SEVEN => "7" | EIGHT => "8" | NINE => "9" | TEN => "10"
  | JACK => "J" | QUEEN => "Q" | KING => "K" | ACE => "A"
  end.

Record Card := mkCard { id : string; suit : Suit; rank : Rank }.

#[global] Instance Card_eq_dec : EqDecision Card.
Proof. solve_decision. Defined.

Inductive Side := player | ai.
Inductive GameStatus := waiting | playing | choosing_suit | game_over.
Inductive Difficulty := easy | normal | hard.

#[global] Instance Side_eq_dec : EqDecision Side.
Proof. solve_decision. Defined.

#[global] Instance GameStatus_eq_dec : EqDecision GameStatus.
Proof. solve_decision. Defined.

#[global] Instance Difficulty_eq_dec : EqDecision Difficulty.
Proof. solve_decision. Defined.

Record GameState := mkState {
  deck : list Card;
  playerHand : list Card;
  aiHand : list Card;
  discardPile : list Card;
  currentSuit : option Suit;
  turn : Side;
  status : GameStatus;
  winner : option Side;
  difficulty : Difficulty
}.

(** [prev[isPlayer ? 'playerHand' : 'aiHand']] *)
Definition hand (target : Side) (s : GameState) : list Card :=
  match target with player => playerHand s | ai => aiHand s end.

Definition other (t : Side) : Side :=
  match t with player => ai | ai => player end.

(** All cards the state holds, pile after pile. *)
Definition allCards (s : GameState) : list Card :=
  deck s ++ playerHand s ++ aiHand s ++ discardPile s.

(** ** Constants and helpers *)

Definition SUITS : list Suit := [HEARTS; DIAMONDS; CLUBS; SPADES].

Definition RANKS : list Rank :=
  [ACE; TWO; THREE; FOUR; FIVE; SIX; SEVEN; EIGHT; NINE; TEN;
   JACK; QUEEN; KING].

(** The object literal [createDeck] pushes: [id] is [`${rank}-${suit}`]. *)
Definition makeCard (suit : Suit) (rank : Rank) : Card :=
  {| id := rank_value rank +:+ "-" +:+ suit_value suit;
     suit := suit;
     rank := rank |}.

(** [createDeck]: for each suit, for each rank, push one card. *)
Definition createDeck : list Card :=
  suit ← SUITS; makeCard suit <$> RANKS.

(** [Array.prototype.pop]: the array without its last element, and that
    element; [None] stands for the [undefined] an empty array gives. *)
Definition pop {A} (l : list A) : option (list A * A) :=
  match last l with
  | Some x => Some (take (length l - 1) l, x)
  | None => None
  end.

(** [[a[i], a[j]] = [a[j], a[i]]]: the right-hand side is read first, then
    [a[i]] and [a[j]] are written in that order.  The loop of [shuffle] only
    calls it with [j <= i < a.length]; outside that range the model leaves
    the list alone. *)
Definition swap (a : list Card) (i j : nat) : list Card :=
  match a !! j, a !! i with
  | Some at_j, Some at_i => <[j:=at_i]> (<[i:=at_j]> a)
  | _, _ => a
  end.

(** The body of [shuffle]'s loop, for [i] down to [1].  [rnd i] is the
    random source at the iteration with index [i]:
    [Math.floor(Math.random() * (i + 1))] is some index in [0..i], here
    [rnd i mod (i + 1)], so every such index can be chosen. *)
Fixpoint shuffle_loop (rnd : nat → nat) (i : nat) (newDeck : list Card)
  : list Card :=
  match i with
  | 0 => newDeck
  | S i' =>
      let j := rnd i `mod` (i + 1) in
      shuffle_loop rnd i' (swap newDeck i j)
  end.

Definition shuffle (rnd : nat → nat) (deck : list Card) : list Card :=
  shuffle_loop rnd (length deck - 1) deck.

(** ** Game actions *)

(** The [while] loop of [initGame]: as long as the candidate is an 8 it is
    put back at the head of the deck ([unshift]) and the tail is popped
    again.  [fuel] bounds the number of iterations; [None] is returned when
    it runs out, or when [pop] yields [undefined] and reading [.rank]
    throws. *)
Fixpoint redraw (fuel : nat) (initialDiscard : Card) (fullDeck : list Card)
  : option (Card * list Card) :=
  if decide (rank initialDiscard = EIGHT) then
    match fuel with
    | 0 => None
    | S fuel' =>
        match pop (initialDiscard :: fullDeck) with
        | Some (fullDeck', next) => redraw fuel' next fullDeck'
        | None => None
        end
    end
  else Some (initialDiscard, fullDeck).

Definition initGame (fuel : nat) (rnd : nat → nat) (difficulty : Difficulty)
  : option GameState :=
  let fullDeck := shuffle rnd createDeck in
  let playerHand := take 8 fullDeck in
  let fullDeck := drop 8 fullDeck in
  let aiHand := take 8 fullDeck in
  let fullDeck := drop 8 fullDeck in
  '(fullDeck, initialDiscard) ← pop fullDeck;
  '(initialDiscard, fullDeck) ← redraw fuel initialDiscard fullDeck;
  Some {| deck := fullDeck;
          playerHand := playerHand;
          aiHand := aiHand;
          discardPile := [initialDiscard];
          currentSuit := Some (suit initialDiscard);
          turn := player;
          status := playing;
          winner := None;
          difficulty := difficulty |}.

(** The playability test as [drawCard] writes it inline.  [||] stops at the
    first true operand, so [topCard.rank] is only read when the drawn card
    is not an 8; with an empty discard pile [topCard] is [undefined] and the
    read throws, which is [None] here. *)
Definition canPlay (drawnCard : Card) (topCard : option Card)
    (prev : GameState) : option bool :=
  if bool_decide (rank drawnCard = EIGHT) then Some true
  else
    match topCard with
    | None => None
    | Some topCard =>
        Some (bool_decide (rank drawnCard = rank topCard)
              || bool_decide (Some (suit drawnCard) = currentSuit prev))
    end.

(** [drawCard(target)], the state updater.  [None]: the updater throws. *)
Definition drawCard (target : Side) (prev : GameState) : option GameState :=
  if bool_decide (length (deck prev) = 0) then
    Some {| deck := deck prev;
            playerHand := playerHand prev;
            aiHand := aiHand prev;
            discardPile := discardPile prev;
            currentSuit := currentSuit prev;
            turn := (if bool_decide (turn prev = player) then ai else player);
            status := status prev;
            winner := winner prev;
            difficulty := difficulty prev |}
  else
    '(newDeck, drawnCard) ← pop (deck prev);
    let isPlayer := bool_decide (target = player) in
    let topCard := last (discardPile prev) in
    ok ← canPlay drawnCard topCard prev;
    Some {| deck := newDeck;
            playerHand :=
              (if isPlayer then playerHand prev ++ [drawnCard]
               else playerHand prev);
            aiHand :=
              (if isPlayer then aiHand prev
               else aiHand prev ++ [drawnCard]);
            discardPile := discardPile prev;
            currentSuit := currentSuit prev;
            turn :=
              (if (ok : bool) then turn prev
               else if isPlayer then ai else player);
            status := status prev;
            winner := winner prev;
            difficulty := difficulty prev |}.

(** [counts : Record<Suit, number>], an object with exactly the four suit
    keys: a total map on [Suit].  [Object.entries] lists the keys in the
    order the literal wrote them. *)
Definition Counts := Suit → nat.

Definition noCounts : Counts := λ _, 0.

(** [counts[c.suit]++] *)
Definition increment (counts : Counts) (c : Card) : Counts :=
  λ s, if decide (s = suit c) then S (counts s) else counts s.

(** [hand.forEach(c => counts[c.suit]++)] from the all-zero object *)
Definition countSuits (hand : list Card) : Counts :=
  foldl increment noCounts hand.

Definition entries (counts : Counts) : list (Suit * nat) :=
  [(HEARTS, counts HEARTS); (DIAMONDS, counts DIAMONDS);
   (CLUBS, counts CLUBS); (SPADES, counts SPADES)].

(** [Array.prototype.reduce] without an initial value: the first element
    seeds the accumulator; on an empty array it throws ([None]). *)
Definition reduce {A} (f : A → A → A) (l : list A) : option A :=
  match l with
  | [] => None
  | a :: l' => Some (foldl f a l')
  end.

(** [Object.entries(counts).reduce((a, b) => a[1] > b[1] ? a : b)[0]];
    [a[1] > b[1]] is written [b.2 < a.2]. *)
Definition mostFrequentSuit (counts : Counts) : option Suit :=
  fst <$> reduce (λ a b, if decide (b.2 < a.2) then a else b) (entries counts).

(** [playCard(card, target)], the state updater.  The pair is
    [(nextStatus, nextSuit)]; [nextTurn] is fixed before the branches.  The
    reduction runs over four entries and cannot throw, so the [default] is
    never used. *)
Definition playCard (card : Card) (target : Side) (prev : GameState)
  : GameState :=
  let isPlayer := bool_decide (target = player) in
  let newHand := filter (λ c, id c ≠ id card) (hand target prev) in
  let newDiscardPile := discardPile prev ++ [card] in
  let nextTurn := if isPlayer then ai else player in
  if bool_decide (length newHand = 0) then
    {| deck := deck prev;
       playerHand := (if isPlayer then newHand else playerHand prev);
       aiHand := (if isPlayer then aiHand prev else newHand);
       discardPile := newDiscardPile;
       currentSuit := currentSuit prev;
       turn := turn prev;
       status := game_over;
       winner := Some target;
       difficulty := difficulty prev |}
  else
    let next : GameStatus * Suit :=
      if bool_decide (rank card = EIGHT) then
        if isPlayer then (choosing_suit, suit card)
        else
          let counts := countSuits newHand in
          (playing, default (suit card) (mostFrequentSuit counts))
      else (playing, suit card) in
    {| deck := deck prev;
       playerHand := (if isPlayer then newHand else playerHand prev);
       aiHand := (if isPlayer then aiHand prev else newHand);
       discardPile := newDiscardPile;
       currentSuit := Some (next.2);
       status := next.1;
       turn := nextTurn;
       winner := winner prev;
       difficulty := difficulty prev |}.

(** [selectSuit(suit)] *)
Definition selectSuit (suit : Suit) (prev : GameState) : GameState :=
  {| deck := deck prev;
     playerHand := playerHand prev;
     aiHand := aiHand prev;
     discardPile := discardPile prev;
     currentSuit := Some suit;
     status := playing;
     turn := ai;
     winner := winner prev;
     difficulty := difficulty prev |}.

(** ** The computer opponent (the effect on [state]) *)

(** [Array.prototype.filter] with a callback that may throw. *)
Fixpoint filterThrowing {A} (f : A → option bool) (l : list A)
  : option (list A) :=
  match l with
  | [] => Some []
  | x :: l' =>
      keep ← f x;
      rest ← filterThrowing f l';
      Some (if (keep : bool) then x :: rest else rest)
  end.

(** The candidate test the effect writes inline in its [filter] callback;
    as in [drawCard], [topCard.rank] throws on an empty discard pile. *)
Definition aiCandidate (state : GameState) (topCard : option Card) (c : Card)
  : option bool :=
  if bool_decide (rank c = EIGHT) then Some true
  else
    match topCard with
    | None => None
    | Some topCard =>
        Some (bool_decide (rank c = rank topCard)
              || bool_decide (Some (suit c) = currentSuit state))
    end.

Definition playableCards (state : GameState) : option (list Card) :=
  let topCard := last (discardPile state) in
  filterThrowing (aiCandidate state topCard) (aiHand state).

Inductive Move := PlayCard (cardToPlay : Card) | DrawCard.

(** The body of the timer callback up to the call it ends with.  [r] is the
    random source of the easy branch:
    [Math.floor(Math.random() * playableCards.length)] is [r mod length].
    [None]: the callback throws. *)
Definition aiMove (r : nat) (state : GameState) : option Move :=
  playableCards ← playableCards state;
  if bool_decide (0 < length playableCards) then
    cardToPlay ←
      match difficulty state with
      | easy => playableCards !! (r `mod` length playableCards)
      | normal =>
          match list_find (λ c, rank c ≠ EIGHT) playableCards with
          | Some (_, nonEight) => Some nonEight
          | None => playableCards !! 0
          end
      | hard =>
          let nonEights := filter (λ c, rank c ≠ EIGHT) playableCards in
          if bool_decide (0 < length nonEights) then
            let counts := countSuits (aiHand state) in
            reduce (λ prev curr,
                      if decide (counts (suit prev) < counts (suit curr))
                      then curr else prev)
                   nonEights
          else playableCards !! 0
      end;
    Some (PlayCard cardToPlay)
  else Some DrawCard.

(** The effect: it acts only while [status] is [playing] and it is the
    computer's turn. *)
Definition aiTurn (r : nat) (state : GameState) : option GameState :=
  if bool_decide (status state = playing) && bool_decide (turn state = ai)
  then
    move ← aiMove r state;
    match move with
    | PlayCard cardToPlay => Some (playCard cardToPlay ai state)
    | DrawCard => drawCard ai state
    end
  else Some state.

(** ** The guards of the render function *)

Definition isPlayerTurn (state : GameState) : bool :=
  bool_decide (turn state = player) && bool_decide (status state = playing).

(** [isPlayable], computed for each card of the player's hand;
    [topDiscard?.rank] is [undefined] on an empty discard pile and then
    equals no rank. *)
Definition isPlayable (state : GameState) (card : Card) : bool :=
  isPlayerTurn state
  && (bool_decide (rank card = EIGHT)
      || match last (discardPile state) with
         | Some topDiscard => bool_decide (rank card = rank topDiscard)
         | None => false
         end
      || bool_decide (Some (suit card) = currentSuit state)).

(** A click on a card of the hand: [onClick={isPlayable ? onClick : undefined}]
    with [onClick = () => playCard(card, 'player')]. *)
Definition clickCard (card : Card) (state : GameState) : GameState :=
  if isPlayable state card then playCard card player state else state.

(** A click in the suit picker, which is rendered only while
    [state.status === 'choosing_suit']. *)
Definition clickSuit (suit : Suit) (state : GameState) : GameState :=
  if bool_decide (status state = choosing_suit) then selectSuit suit state
  else state.

(** ** Sequences of actions *)

Inductive Action :=
  | Start (rnd : nat → nat) (difficulty : Difficulty)
  | Draw (target : Side)
  | Play (card : Card) (target : Side)
  | ChooseSuit (suit : Suit).

Definition dispatch (fuel : nat) (a : Action) (s : GameState)
  : option GameState :=
  match a with
  | Start rnd difficulty => initGame fuel rnd difficulty
  | Draw target => drawCard target s
  | Play card target => Some (playCard card target s)
  | ChooseSuit suit => Some (selectSuit suit s)
  end.

Fixpoint run (fuel : nat) (acts : list Action) (s : GameState)
  : option GameState :=
  match acts with
  | [] => Some s
  | a :: acts' => s' ← dispatch fuel a s; run fuel acts' s'
  end.

(** Every [Play] of the sequence names a card that its target holds when
    the action is dispatched. *)
Fixpoint playsFromHand (fuel : nat) (acts : list Action) (s : GameState)
  : Prop :=
  match acts with
  | [] => True
  | a :: acts' =>
      match a with
      | Play card target => card ∈ hand target s
      | _ => True
      end
      ∧ match dispatch fuel a s with
        | Some s' => playsFromHand fuel acts' s'
        | None => True
        end
  end.

(** ** The rule of the specification *)

(** [isPlayable(card, topCard, currentSuit)] as the specification words it:
    rank 8, or the rank of the top card, or the current suit. *)
Definition isPlayable_spec (card topCard : Card) (currentSuit : option Suit)
  : Prop :=
  rank card = EIGHT ∨ rank card = rank topCard ∨ Some (suit card) = currentSuit.

#[global] Instance isPlayable_spec_dec card topCard currentSuit :
  Decision (isPlayable_spec card topCard currentSuit).
Proof. unfold isPlayable_spec. apply _. Defined.

#[global] Typeclasses Opaque isPlayable_spec.

(** ** Notions the properties are stated with *)

(** How often a suit occurs in a hand. *)
Definition occurrences (x : Suit) (hand : list Card) : nat :=
  length (filter (λ c, suit c = x) hand).

(** Position in the enumeration order of [Suit]. *)
Definition suitIndex (x : Suit) : nat :=
  match x with HEARTS => 0 | DIAMONDS => 1 | CLUBS => 2 | SPADES => 3 end.

Definition isEight (c : Card) : Prop := rank c = EIGHT.

#[global] Instance isEight_dec c : Decision (isEight c).
Proof. unfold isEight. apply _. Defined.

#[global] Typeclasses Opaque isEight.

(** The invariant: the four piles together are a permutation of the 52
    cards of [createDeck], and a card lies on the discard pile. *)
Definition conserved (s : GameState) : Prop :=
  allCards s ≡ₚ createDeck ∧ discardPile s ≠ [].

#[global] Instance playsFromHand_dec fuel acts s :
  Decision (playsFromHand fuel acts s).
Proof.
  revert s. induction acts as [|a acts IH]; intros s; simpl; [apply _|].
  destruct (dispatch fuel a s); destruct a; apply _.
Defined.

(** ** Sample games *)

(** The state [useState] starts from. *)
Definition initialState : GameState :=
  {| deck := [];
     playerHand := [];
     aiHand := [];
     discardPile := [];
     currentSuit := None;
     turn := player;
     status := waiting;
     winner := None;
     difficulty := normal |}.

(** A random source that always picks index 0. *)
Definition alwaysFirst : nat → nat := λ _, 0.

(** The deal [alwaysFirst] gives: the player holds 2 to 9 of hearts, the
    computer 10 to king of hearts and ace to 4 of diamonds, the ace of
    hearts is the top card and the king of spades the deck's last card. *)
Definition dealt : GameState :=
  Eval vm_compute in default initialState (initGame 4 alwaysFirst normal).

(** The player played the 2 of hearts, the computer the 2 of diamonds. *)
Definition twoPlays : list Action :=
  [Play (makeCard HEARTS TWO) player; Play (makeCard DIAMONDS TWO) ai].

Definition afterTwoPlays : GameState :=
  Eval vm_compute in default initialState (run 4 twoPlays dealt).

(** The player drew five spades, then the computer drew the 8 of spades. *)
Definition sixDraws : list Action :=
  [Draw player; Draw player; Draw player; Draw player; Draw player; Draw ai].

Definition afterSixDraws : GameState :=
  Eval vm_compute in default initialState (run 4 sixDraws dealt).

(** An endgame on an empty deck: each side holds one card, the computer's
    is an 8. *)
Definition endgame : GameState :=
  {| deck := [];
     playerHand := [makeCard HEARTS TWO];
     aiHand := [makeCard SPADES EIGHT];
     discardPile := [makeCard DIAMONDS FIVE];
     currentSuit := Some DIAMONDS;
     turn := ai;
     status := playing;
     winner := None;
     difficulty := hard |}.

(** A hard game in which the computer can follow the 5 of diamonds with
    the 5 of clubs or the 5 of hearts, and holds three hearts. *)
Definition hardGame : GameState :=
  {| deck := [makeCard SPADES ACE];
     playerHand := [makeCard HEARTS TWO; makeCard CLUBS TEN];
     aiHand := [makeCard CLUBS FIVE; makeCard HEARTS NINE;
                makeCard HEARTS FIVE; makeCard HEARTS KING;
                makeCard SPADES EIGHT];
     discardPile := [makeCard DIAMONDS SEVEN; makeCard DIAMONDS FIVE];
     currentSuit := Some DIAMONDS;
     turn := ai;
     status := playing;
     winner := None;
     difficulty := hard |}.

(** The player has just played an 8 and must pick a suit. *)
Definition choosing : GameState :=
  {| deck := [makeCard SPADES ACE];
     playerHand := [makeCard HEARTS TWO];
     aiHand := [makeCard CLUBS FIVE];
     discardPile := [makeCard DIAMONDS FIVE; makeCard SPADES EIGHT];
     currentSuit := Some SPADES;
     turn := ai;
     status := choosing_suit;
     winner := None;
     difficulty := normal |}.

(** ** The rest of the state machine and of the render function *)

(** [goToHome] *)
Definition goToHome (prev : GameState) : GameState :=
  {| deck := deck prev;
     playerHand := playerHand prev;
     aiHand := aiHand prev;
     discardPile := discardPile prev;
     currentSuit := currentSuit prev;
     turn := turn prev;
     status := waiting;
     winner := None;
     difficulty := difficulty prev |}.

(** The difficulty buttons of the start screen:
    [setState(prev => ({ ...prev, difficulty: d }))]. *)
Definition setDifficulty (d : Difficulty) (prev : GameState) : GameState :=
  {| deck := deck prev;
     playerHand := playerHand prev;
     aiHand := aiHand prev;
     discardPile := discardPile prev;
     currentSuit := currentSuit prev;
     turn := turn prev;
     status := status prev;
     winner := winner prev;
     difficulty := d |}.

(** [Array.prototype.some] with a callback that may throw; it stops at the
    first element the callback accepts. *)
Fixpoint someThrowing {A} (f : A → option bool) (l : list A) : option bool :=
  match l with
  | [] => Some false
  | x :: l' =>
      found ← f x;
      if (found : bool) then Some true else someThrowing f l'
  end.

(** The test [canPlayerDraw] writes inline in its [some] callback; unlike
    the per-card flag it reads [topDiscard.rank] without [?.], which throws
    on an empty discard pile. *)
Definition handCandidate (state : GameState) (topDiscard : option Card)
    (c : Card) : option bool :=
  if bool_decide (rank c = EIGHT) then Some true
  else
    match topDiscard with
    | None => None
    | Some topDiscard =>
        Some (bool_decide (rank c = rank topDiscard)
              || bool_decide (Some (suit c) = currentSuit state))
    end.

(** [canPlayerDraw]: [None] when computing it throws. *)
Definition canPlayerDraw (state : GameState) : option bool :=
  if negb (isPlayerTurn state) then Some false
  else
    let topDiscard := last (discardPile state) in
    negb <$> someThrowing (handCandidate state topDiscard) (playerHand state).

(** A click on the draw pile, [canPlayerDraw && drawCard('player')]; the
    Draw Card button, rendered only when [canPlayerDraw], does the same. *)
Definition clickDeck (state : GameState) : option GameState :=
  enabled ← canPlayerDraw state;
  if (enabled : bool) then drawCard player state else Some state.

(** The badge over the discard pile:
    [state.currentSuit && state.currentSuit !== topDiscard?.suit]. *)
Definition suitBadge (state : GameState) : bool :=
  match currentSuit state with
  | None => false
  | Some current =>
      bool_decide (Some current ≠ suit <$> last (discardPile state))
  end.

(** What can happen to the state: the buttons and cards of the render
    function and the opponent's timer.  [ClickCard i] is a click on the
    [i]-th card of the rendered hand, [NewGame rnd] any of the buttons that
    call [initGame(state.difficulty)], with [rnd] the random source of its
    shuffle, [AiTimer r] the timer callback with the random source [r] of
    the easy branch.  The difficulty buttons exist only on the start
    screen. *)
Inductive Intent :=
  | NewGame (rnd : nat → nat)
  | GoHome
  | PickDifficulty (d : Difficulty)
  | ClickCard (i : nat)
  | ClickDeck
  | ClickSuit (suit : Suit)
  | AiTimer (r : nat).

Definition handle (fuel : nat) (intent : Intent) (state : GameState)
  : option GameState :=
  match intent with
  | NewGame rnd => initGame fuel rnd (difficulty state)
  | GoHome => Some (goToHome state)
  | PickDifficulty d =>
      Some (if bool_decide (status state = waiting)
            then setDifficulty d state else state)
  | ClickCard i =>
      match playerHand state !! i with
      | Some card => Some (clickCard card state)
      | None => Some state
      end
  | ClickDeck => clickDeck state
  | ClickSuit suit => Some (clickSuit suit state)
  | AiTimer r => aiTurn r state
  end.

Fixpoint session (fuel : nat) (intents : list Intent) (state : GameState)
  : option GameState :=
  match intents with
  | [] => Some state
  | intent :: intents' =>
      state' ← handle fuel intent state; session fuel intents' state'
  end.

(** Both sides still hold cards and nobody has won. *)
Definition midGame (s : GameState) : Prop :=
  winner s = None ∧ playerHand s ≠ [] ∧ aiHand s ≠ [].

(** What holds of every state a session reaches, status by status. *)
Definition sound (s : GameState) : Prop :=
  match status s with
  | waiting => winner s = None
  | playing => conserved s ∧ is_Some (currentSuit s) ∧ midGame s
  | choosing_suit =>
      conserved s ∧ is_Some (currentSuit s) ∧ midGame s
      ∧ turn s = ai
      ∧ ∃ top, last (discardPile s) = Some top ∧ rank top = EIGHT
  | game_over =>
      conserved s ∧ is_Some (currentSuit s)
      ∧ ∃ w, winner s = Some w ∧ hand w s = [] ∧ hand (other w) s ≠ []
  end.

(** Position in [RANKS]. *)
Definition rankIndex (r : Rank) : nat :=
  match r with
  | ACE => 0 | TWO => 1 | THREE => 2 | FOUR => 3 | FIVE => 4 | SIX => 5
  | SEVEN => 6 | EIGHT => 7 | NINE => 8 | TEN => 9 | JACK => 10
  | QUEEN => 11 | KING => 12
  end.

(** A random source that picks, at each iteration, the index itself. *)
Definition alwaysSelf : nat → nat := λ i, i.

(** Deck exhausted, and neither the 2 of hearts nor the king of clubs
    follows the 5 of diamonds. *)
Definition stalemate : GameState :=
  {| deck := [];
     playerHand := [makeCard HEARTS TWO];
     aiHand := [makeCard CLUBS KING];
     discardPile := [makeCard DIAMONDS SEVEN; makeCard DIAMONDS FIVE];
     currentSuit := Some DIAMONDS;
     turn := player;
     status := playing;
     winner := None;
     difficulty := normal |}.

(** [hardGame] on normal and on easy difficulty. *)
Definition normalGame : GameState := setDifficulty normal hardGame.
Definition easyGame : GameState := setDifficulty easy hardGame.

Definition isStart (a : Action) : Prop :=
  match a with Start _ _ => True | _ => False end.

(** A session on the deal of [alwaysFirst]: the player plays the hearts of
    the hand from the left, picks hearts after the 8, and wins; the opponent
    follows with its hearts and then draws. *)
Definition heartsSession : list Intent :=
  [NewGame alwaysFirst;
   ClickCard 0; AiTimer 0; ClickCard 0; AiTimer 0; ClickCard 0; AiTimer 0;
   ClickCard 0; AiTimer 0; ClickCard 0; AiTimer 0; ClickCard 0; AiTimer 0;
   ClickCard 0; ClickSuit HEARTS; AiTimer 0; ClickCard 0].

(** The player opens with the 8 of hearts. *)
Definition eightSession : list Intent := [NewGame alwaysFirst; ClickCard 6].

(** * Properties *)

(** ** Arrays *)

Section arrays.
Context {A : Type}.
Implicit Types (l : list A) (x : A).

Lemma pop_snoc l x : pop (l ++ [x]) = Some (l, x).
Proof.
  unfold pop. rewrite last_snoc, length_app. simpl.
  replace (length l + 1 - 1) with (length l) by lia.
  by rewrite take_app_length.
Qed.

End arrays.

(** ** The playability rule at its three sites *)

Lemma canPlay_top drawnCard topCard prev :
  canPlay drawnCard (Some topCard) prev
  = Some (bool_decide (isPlayable_spec drawnCard topCard (currentSuit prev))).
Proof.
  unfold canPlay, isPlayable_spec. f_equal.
  repeat case_bool_decide; simpl; try done; intuition congruence.
Qed.

Lemma aiCandidate_top state topCard c :
  aiCandidate state (Some topCard) c
  = Some (bool_decide (isPlayable_spec c topCard (currentSuit state))).
Proof.
  unfold aiCandidate, isPlayable_spec.
  repeat case_bool_decide; simpl; try done; intuition congruence.
Qed.

Lemma filterThrowing_total {A} (f : A → option bool) (P : A → Prop)
    `{!∀ x, Decision (P x)} (l : list A) :
  (∀ x, f x = Some (bool_decide (P x))) →
  filterThrowing f l = Some (filter P l).
Proof.
  intros Hf. induction l as [|x l IH]; [done|].
  simpl. rewrite Hf, IH. simpl. rewrite filter_cons.
  by case_bool_decide; case_decide.
Qed.

Lemma playableCards_top state pile topCard :
  discardPile state = pile ++ [topCard] →
  playableCards state
  = Some (filter (λ c, isPlayable_spec c topCard (currentSuit state))
                 (aiHand state)).
Proof.
  intros Hpile. unfold playableCards. rewrite Hpile, last_snoc.
  apply filterThrowing_total, aiCandidate_top.
Qed.

Lemma isPlayable_top state pile topCard card :
  discardPile state = pile ++ [topCard] →
  isPlayable state card
  = isPlayerTurn state
    && bool_decide (isPlayable_spec card topCard (currentSuit state)).
Proof.
  intros Hpile. unfold isPlayable, isPlayable_spec.
  rewrite Hpile, last_snoc. f_equal.
  repeat case_bool_decide; simpl; try done; intuition congruence.
Qed.

(** C2. Wherever playability is decided -- the check on the drawn card in
    [drawCard], the opponent's filter over its hand, and the render-time
    flag that enables a card of the human's hand -- the decision is that of
    the one rule of the specification: rank 8, or the top card's rank, or
    the current suit.  The human's flag additionally requires that it is
    the player's turn in status [playing]. *)
Theorem playability_sites_agree (state : GameState) (pile : list Card)
    (topCard card : Card) :
  discardPile state = pile ++ [topCard] →
  canPlay card (last (discardPile state)) state
    = Some (bool_decide (isPlayable_spec card topCard (currentSuit state)))
  ∧ aiCandidate state (last (discardPile state)) card
    = Some (bool_decide (isPlayable_spec card topCard (currentSuit state)))
  ∧ playableCards state
    = Some (filter (λ c, isPlayable_spec c topCard (currentSuit state))
                   (aiHand state))
  ∧ isPlayable state card
    = isPlayerTurn state
      && bool_decide (isPlayable_spec card topCard (currentSuit state)).
Proof.
  intros Hpile. split_and!.
  - rewrite Hpile, last_snoc. apply canPlay_top.
  - rewrite Hpile, last_snoc. apply aiCandidate_top.
  - by eapply playableCards_top.
  - by eapply isPlayable_top.
Qed.

(** ** [drawCard] *)

Lemma drawCard_empty target s :
  deck s = [] →
  drawCard target s
  = Some {| deck := [];
            playerHand := playerHand s;
            aiHand := aiHand s;
            discardPile := discardPile s;
            currentSuit := currentSuit s;
            turn := other (turn s);
            status := status s;
            winner := winner s;
            difficulty := difficulty s |}.
Proof.
  intros Hdeck. unfold drawCard. rewrite Hdeck. simpl.
  by destruct (turn s).
Qed.

Lemma drawCard_draws target s newDeck drawn pile top :
  deck s = newDeck ++ [drawn] →
  discardPile s = pile ++ [top] →
  drawCard target s
  = Some {| deck := newDeck;
            playerHand :=
              (if target is player then playerHand s ++ [drawn]
               else playerHand s);
            aiHand :=
              (if target is player then aiHand s else aiHand s ++ [drawn]);
            discardPile := discardPile s;
            currentSuit := currentSuit s;
            turn :=
              (if bool_decide (isPlayable_spec drawn top (currentSuit s))
               then turn s else other target);
            status := status s;
            winner := winner s;
            difficulty := difficulty s |}.
Proof.
  intros Hdeck Hpile. unfold drawCard.
  rewrite Hdeck, bool_decide_eq_false_2 by (rewrite length_app; simpl; lia).
  rewrite pop_snoc, Hpile, last_snoc. simpl. rewrite canPlay_top. simpl.
  by destruct target.
Qed.

(** C6. [drawCard] on an empty deck draws nothing, leaves both hands as
    they are and flips the turn.  Otherwise (with a top card on the discard
    pile) it removes the deck's last card and appends it to the target's
    hand; the turn stays where it was when the drawn card is playable against
    the top card and the current suit, and goes to the other side when it is
    not, so a target that had the turn keeps it exactly when the drawn card
    is playable. *)
Theorem drawCard_behaviour (target : Side) (s : GameState) :
  (deck s = [] →
   ∃ s', drawCard target s = Some s'
     ∧ deck s' = [] ∧ playerHand s' = playerHand s ∧ aiHand s' = aiHand s
     ∧ discardPile s' = discardPile s ∧ currentSuit s' = currentSuit s
     ∧ status s' = status s ∧ winner s' = winner s
     ∧ turn s' = other (turn s))
  ∧ (∀ newDeck drawn pile top,
       deck s = newDeck ++ [drawn] →
       discardPile s = pile ++ [top] →
       ∃ s', drawCard target s = Some s'
         ∧ deck s' = newDeck
         ∧ hand target s' = hand target s ++ [drawn]
         ∧ hand (other target) s' = hand (other target) s
         ∧ discardPile s' = discardPile s ∧ currentSuit s' = currentSuit s
         ∧ status s' = status s ∧ winner s' = winner s
         ∧ (isPlayable_spec drawn top (currentSuit s) → turn s' = turn s)
         ∧ (¬ isPlayable_spec drawn top (currentSuit s) →
            turn s' = other target)
         ∧ (turn s = target →
            (turn s' = target ↔ isPlayable_spec drawn top (currentSuit s)))).
Proof.
  split.
  - intros Hdeck. eexists. split; [by apply drawCard_empty|]. done.
  - intros newDeck drawn pile top Hdeck Hpile.
    eexists. split; [by eapply drawCard_draws|]. simpl.
    split_and!; try done.
    + by destruct target.
    + by destruct target.
    + intros Hp. by rewrite bool_decide_eq_true_2.
    + intros Hp. by rewrite bool_decide_eq_false_2.
    + intros Hturn. case_bool_decide; [done|].
      split; [|done]. by destruct target.
Qed.

(** ** [playCard] *)

Lemma playCard_discardPile card target s :
  discardPile (playCard card target s) = discardPile s ++ [card].
Proof. unfold playCard. by case_bool_decide. Qed.

Lemma playCard_deck card target s :
  deck (playCard card target s) = deck s.
Proof. unfold playCard. by case_bool_decide. Qed.

Lemma playCard_hand card target s :
  hand target (playCard card target s)
  = filter (λ c, id c ≠ id card) (hand target s).
Proof. unfold playCard. by case_bool_decide; destruct target. Qed.

Lemma playCard_hand_other card target s :
  hand (other target) (playCard card target s) = hand (other target) s.
Proof. unfold playCard. by case_bool_decide; destruct target. Qed.

Lemma playCard_changes card target s : playCard card target s ≠ s.
Proof.
  intros Heq. apply (f_equal (λ x, length (discardPile x))) in Heq.
  rewrite playCard_discardPile, length_app in Heq. simpl in Heq. lia.
Qed.

Lemma filter_id_absent (card : Card) (l : list Card) :
  id card ∉ id <$> l → filter (λ c, id c ≠ id card) l = l.
Proof.
  intros Hnotin. induction l as [|x l IH]; [done|].
  rewrite fmap_cons, not_elem_of_cons in Hnotin. destruct Hnotin as [Hx Hl].
  rewrite filter_cons_True by done. by rewrite IH.
Qed.

Lemma playCard_continues card target s :
  filter (λ c, id c ≠ id card) (hand target s) ≠ [] →
  playCard card target s
  = {| deck := deck s;
       playerHand :=
         (if target is player
          then filter (λ c, id c ≠ id card) (playerHand s)
          else playerHand s);
       aiHand :=
         (if target is player then aiHand s
          else filter (λ c, id c ≠ id card) (aiHand s));
       discardPile := discardPile s ++ [card];
       currentSuit :=
         Some (if bool_decide (rank card = EIGHT ∧ target = ai)
               then default (suit card)
                      (mostFrequentSuit
                         (countSuits
                            (filter (λ c, id c ≠ id card) (hand target s))))
               else suit card);
       status :=
         (if bool_decide (rank card = EIGHT ∧ target = player)
          then choosing_suit else playing);
       turn := other target;
       winner := winner s;
       difficulty := difficulty s |}.
Proof.
  intros Hrest. unfold playCard.
  rewrite bool_decide_eq_false_2
    by (destruct (filter _ (hand target s)); simpl; [done|lia]).
  destruct target; repeat case_bool_decide; simpl; try done; intuition congruence.
Qed.

(** C5. When the hand a card is played from becomes empty, [playCard]
    returns at once with status [game_over] and the target as winner: the
    current suit and the turn are those of the prior state, also when the
    card is an 8, for either side. *)
Theorem playCard_last_card_wins (card : Card) (target : Side) (s : GameState) :
  filter (λ c, id c ≠ id card) (hand target s) = [] →
  playCard card target s
  = {| deck := deck s;
       playerHand := (if target is player then [] else playerHand s);
       aiHand := (if target is player then aiHand s else []);
       discardPile := discardPile s ++ [card];
       currentSuit := currentSuit s;
       turn := turn s;
       status := game_over;
       winner := Some target;
       difficulty := difficulty s |}.
Proof.
  intros Hempty. unfold playCard. rewrite Hempty. simpl.
  by destruct target.
Qed.

(** C10. [playCard] always appends the card to the discard pile, which
    grows by exactly one; the target's hand is filtered by card id and the
    other piles are untouched.  A card whose id is not in the target's
    (non-empty) hand leaves that hand as it is, and the call still sets the
    current suit and hands the turn to the other side. *)
Theorem playCard_never_validates (card : Card) (target : Side)
    (s : GameState) :
  discardPile (playCard card target s) = discardPile s ++ [card]
  ∧ length (discardPile (playCard card target s))
    = S (length (discardPile s))
  ∧ hand target (playCard card target s)
    = filter (λ c, id c ≠ id card) (hand target s)
  ∧ hand (other target) (playCard card target s) = hand (other target) s
  ∧ deck (playCard card target s) = deck s
  ∧ (id card ∉ id <$> hand target s →
     hand target s ≠ [] →
     hand target (playCard card target s) = hand target s
     ∧ turn (playCard card target s) = other target
     ∧ currentSuit (playCard card target s)
       = Some (if bool_decide (rank card = EIGHT ∧ target = ai)
               then default (suit card)
                      (mostFrequentSuit (countSuits (hand target s)))
               else suit card)).
Proof.
  split_and!.
  - apply playCard_discardPile.
  - rewrite playCard_discardPile, length_app. simpl. lia.
  - apply playCard_hand.
  - apply playCard_hand_other.
  - apply playCard_deck.
  - intros Hnotin Hhand. split; [by rewrite playCard_hand, filter_id_absent|].
    rewrite playCard_continues by (by rewrite filter_id_absent).
    simpl. by rewrite filter_id_absent.
Qed.

(** ** [selectSuit] and the guards of the render function *)

Lemma isPlayable_false state card :
  isPlayable state card = false ↔
  ¬ (turn state = player ∧ status state = playing
     ∧ (rank card = EIGHT
        ∨ (∃ topDiscard, last (discardPile state) = Some topDiscard
                         ∧ rank card = rank topDiscard)
        ∨ Some (suit card) = currentSuit state)).
Proof.
  unfold isPlayable, isPlayerTurn.
  destruct (last (discardPile state)) as [topDiscard|];
    repeat case_bool_decide; simpl; split; try done;
    try (intuition congruence); firstorder congruence.
Qed.

(** C3, as the code has it.  The rejection of an illegal human move lives in
    the render function's click guard, not in [playCard]: a click on a card
    while it is not the player's turn in status [playing], or on a card that
    matches neither rank 8, nor the top card's rank, nor the current suit,
    leaves the state as it is; a click that passes the guard is
    [playCard(card, 'player')]; and [playCard] itself never returns the
    prior state. *)
Theorem clickCard_guards_playCard (card : Card) (state : GameState) :
  (¬ (turn state = player ∧ status state = playing
      ∧ (rank card = EIGHT
         ∨ (∃ topDiscard, last (discardPile state) = Some topDiscard
                          ∧ rank card = rank topDiscard)
         ∨ Some (suit card) = currentSuit state)) →
   clickCard card state = state)
  ∧ (isPlayable state card = true →
     clickCard card state = playCard card player state)
  ∧ playCard card player state ≠ state.
Proof.
  split_and!.
  - intros Hillegal. apply isPlayable_false in Hillegal.
    unfold clickCard. by rewrite Hillegal.
  - intros Hlegal. unfold clickCard. by rewrite Hlegal.
  - apply playCard_changes.
Qed.

(** C9, as the code has it.  [selectSuit] sets the current suit, status
    [playing] and turn [ai] whatever the status was; it has no guard of its
    own.  The suit picker is only rendered in status [choosing_suit], so a
    click reaches [selectSuit] in that status only and changes nothing
    otherwise. *)
Theorem selectSuit_unguarded (suit : Suit) (s : GameState) :
  selectSuit suit s
  = {| deck := deck s;
       playerHand := playerHand s;
       aiHand := aiHand s;
       discardPile := discardPile s;
       currentSuit := Some suit;
       status := playing;
       turn := ai;
       winner := winner s;
       difficulty := difficulty s |}
  ∧ (status s = choosing_suit → clickSuit suit s = selectSuit suit s)
  ∧ (status s ≠ choosing_suit → clickSuit suit s = s).
Proof.
  split; [done|]. unfold clickSuit.
  split; intros Hstatus; by case_bool_decide.
Qed.

(** ** Counting suits *)

Lemma foldl_increment counts hand x :
  foldl increment counts hand x = counts x + occurrences x hand.
Proof.
  revert counts. induction hand as [|c hand IH]; intros counts.
  - unfold occurrences. simpl. lia.
  - simpl. rewrite IH. unfold increment, occurrences.
    rewrite filter_cons. destruct (decide (x = suit c)) as [->|Hne].
    + rewrite decide_True by done. simpl. lia.
    + rewrite decide_False by done. lia.
Qed.

Lemma countSuits_occurrences hand x :
  countSuits hand x = occurrences x hand.
Proof. unfold countSuits. by rewrite foldl_increment. Qed.

(** The reduction over the four entries returns a suit of maximal count,
    and every suit after it in enumeration order has a strictly smaller
    count: among equally frequent suits the last one wins. *)
Lemma mostFrequentSuit_last_max (counts : Counts) :
  ∃ x, mostFrequentSuit counts = Some x
       ∧ (∀ y, counts y ≤ counts x)
       ∧ (∀ y, suitIndex x < suitIndex y → counts y < counts x).
Proof.
  unfold mostFrequentSuit, reduce, entries. simpl.
  repeat (case_decide; simpl in * );
    eexists; (split; [reflexivity|]);
    split; intros []; simpl; lia.
Qed.

(** C7, as the code has it.  When the computer plays an 8 and keeps at
    least one card, the new current suit is a suit that occurs most often
    among the remaining cards of its hand; among equally frequent suits it
    is the last in enumeration order (hearts, diamonds, clubs, spades), as
    every later suit occurs strictly less often.  The turn passes to the
    player and the status is [playing]. *)
Theorem ai_eight_picks_most_frequent_suit (card : Card) (s : GameState) :
  rank card = EIGHT →
  filter (λ c, id c ≠ id card) (aiHand s) ≠ [] →
  ∃ x, currentSuit (playCard card ai s) = Some x
       ∧ (∀ y, occurrences y (aiHand (playCard card ai s))
               ≤ occurrences x (aiHand (playCard card ai s)))
       ∧ (∀ y, suitIndex x < suitIndex y →
               occurrences y (aiHand (playCard card ai s))
               < occurrences x (aiHand (playCard card ai s)))
       ∧ aiHand (playCard card ai s)
         = filter (λ c, id c ≠ id card) (aiHand s)
       ∧ turn (playCard card ai s) = player
       ∧ status (playCard card ai s) = playing.
Proof.
  intros Height Hrest.
  destruct (mostFrequentSuit_last_max
              (countSuits (filter (λ c, id c ≠ id card) (aiHand s))))
    as (x & Hx & Hmax & Hlast).
  exists x. rewrite playCard_continues by done.
  cbn [currentSuit aiHand turn status hand other].
  rewrite bool_decide_eq_true_2 by done. rewrite Hx.
  split_and!; try done.
  - intros y. rewrite <- !countSuits_occurrences. apply Hmax.
  - intros y Hy. rewrite <- !countSuits_occurrences. by apply Hlast.
  - rewrite bool_decide_eq_false_2; [done|]. by intros [_ ?].
Qed.

(** ** The hard opponent *)

Section argmax.
Context {A : Type} (weight : A → nat).

(** [reduce((prev, curr) => w(curr) > w(prev) ? curr : prev)] returns the
    first element of maximal weight. *)
Lemma foldl_first_max (l : list A) (a : A) :
  ∃ before c after,
    a :: l = before ++ c :: after
    ∧ foldl (λ prev curr,
               if decide (weight prev < weight curr) then curr else prev)
            a l = c
    ∧ Forall (λ x, weight x < weight c) before
    ∧ Forall (λ x, weight x ≤ weight c) after.
Proof.
  induction l as [|x l IH] using rev_ind.
  - exists [], a, []. by repeat split.
  - destruct IH as (before & c & after & Hsplit & Hfold & Hbefore & Hafter).
    rewrite foldl_snoc, Hfold. case_decide as Hlt.
    + exists (a :: l), x, []. repeat split; [|done].
      rewrite Hsplit. apply Forall_app. split.
      * eapply Forall_impl; [exact Hbefore|]. simpl. lia.
      * apply Forall_cons. split; [done|].
        eapply Forall_impl; [exact Hafter|]. simpl. lia.
    + exists before, c, (after ++ [x]). repeat split; [|done|].
      * by rewrite app_comm_cons, Hsplit, <- app_assoc.
      * apply Forall_app. split; [done|].
        apply Forall_cons. split; [lia|done].
Qed.

Lemma reduce_first_max (l : list A) :
  l ≠ [] →
  ∃ before c after,
    l = before ++ c :: after
    ∧ reduce (λ prev curr,
                if decide (weight prev < weight curr) then curr else prev)
             l = Some c
    ∧ Forall (λ x, weight x < weight c) before
    ∧ Forall (λ x, weight x ≤ weight c) after.
Proof.
  destruct l as [|a l]; [done|]. intros _.
  destruct (foldl_first_max l a)
    as (before & c & after & Hsplit & Hfold & Hbefore & Hafter).
  exists before, c, after. simpl. by rewrite Hfold.
Qed.
End argmax.

Lemma length_pos_bool {A} (l : list A) :
  bool_decide (0 < length l) = bool_decide (l ≠ []).
Proof. destruct l; simpl; repeat case_bool_decide; try done; lia. Qed.

(** C8. On hard difficulty, with at least one playable card that is not an
    8, the computer plays such a card whose suit occurs most often in its
    full hand, the first one in hand order among those of maximal frequency:
    every candidate before it has a strictly rarer suit, every candidate
    after it a suit no more frequent.  With playable cards that are all 8s
    it plays the first of them. *)
Theorem hard_plays_most_frequent_suit (r : nat) (state : GameState)
    (pile : list Card) (topCard : Card) :
  difficulty state = hard →
  status state = playing →
  turn state = ai →
  discardPile state = pile ++ [topCard] →
  let playable :=
    filter (λ c, isPlayable_spec c topCard (currentSuit state))
           (aiHand state) in
  let nonEights := filter (λ c, rank c ≠ EIGHT) playable in
  (nonEights ≠ [] →
   ∃ before c after,
     nonEights = before ++ c :: after
     ∧ aiMove r state = Some (PlayCard c)
     ∧ aiTurn r state = Some (playCard c ai state)
     ∧ Forall (λ c', occurrences (suit c') (aiHand state)
                     < occurrences (suit c) (aiHand state)) before
     ∧ Forall (λ c', occurrences (suit c') (aiHand state)
                     ≤ occurrences (suit c) (aiHand state)) after)
  ∧ (nonEights = [] → playable ≠ [] →
     ∃ c, head playable = Some c
          ∧ rank c = EIGHT
          ∧ aiMove r state = Some (PlayCard c)
          ∧ aiTurn r state = Some (playCard c ai state)).
Proof.
  intros Hhard Hstatus Hturn Hpile playable nonEights.
  assert (Hplayable : playableCards state = Some playable)
    by (by eapply playableCards_top).
  assert (Hthen : ∀ c, aiMove r state = Some (PlayCard c) →
                       aiTurn r state = Some (playCard c ai state)).
  { intros c Hmove. unfold aiTurn.
    rewrite Hstatus, Hturn, Hmove. by rewrite !bool_decide_eq_true_2. }
  split.
  - intros Hne.
    destruct (reduce_first_max
                (λ c, countSuits (aiHand state) (suit c)) nonEights Hne)
      as (before & c & after & Hsplit & Hred & Hbefore & Hafter).
    assert (Hmove : aiMove r state = Some (PlayCard c)).
    { unfold aiMove. rewrite Hplayable. simpl.
      rewrite length_pos_bool, bool_decide_eq_true_2.
      2:{ intros Hnil. apply Hne. subst nonEights. by rewrite Hnil. }
      rewrite Hhard. fold nonEights.
      rewrite length_pos_bool, bool_decide_eq_true_2 by done.
      by rewrite Hred. }
    exists before, c, after. split_and!; [done|done|by apply Hthen|..].
    + eapply Forall_impl; [exact Hbefore|]. simpl. intros c'.
      by rewrite !countSuits_occurrences.
    + eapply Forall_impl; [exact Hafter|]. simpl. intros c'.
      by rewrite !countSuits_occurrences.
  - intros Hnil Hne.
    destruct playable as [|c rest] eqn:Heq; [done|].
    assert (Hmove : aiMove r state = Some (PlayCard c)).
    { unfold aiMove. rewrite Hplayable. simpl.
      rewrite Hhard. fold playable in nonEights. 
      change (filter (λ c0, rank c0 ≠ EIGHT) (c :: rest)) with nonEights.
      by rewrite Hnil. }
    exists c. split_and!; [done| |done|by apply Hthen].
    destruct (decide (rank c = EIGHT)) as [|Hrank]; [done|].
    exfalso. subst nonEights. by rewrite filter_cons_True in Hnil.
Qed.

(** ** The deck and its shuffle *)


Lemma swap_Permutation a i j : swap a i j ≡ₚ a.
Proof.
  unfold swap.
  destruct (a !! j) as [at_j|] eqn:Hj; [|done].
  destruct (a !! i) as [at_i|] eqn:Hi; [|done].
  by apply Permutation_insert_swap.
Qed.

Lemma shuffle_loop_Permutation rnd i newDeck :
  shuffle_loop rnd i newDeck ≡ₚ newDeck.
Proof.
  revert newDeck. induction i as [|i IH]; intros newDeck; [done|].
  cbn [shuffle_loop]. rewrite IH. apply swap_Permutation.
Qed.

Lemma shuffle_Permutation rnd deck : shuffle rnd deck ≡ₚ deck.
Proof. apply shuffle_loop_Permutation. Qed.

Lemma createDeck_length : length createDeck = 52.
Proof. reflexivity. Qed.

Lemma createDeck_eights : length (filter isEight createDeck) = 4.
Proof. reflexivity. Qed.

Lemma createDeck_NoDup : NoDup createDeck.
Proof. apply (bool_decide_unpack (NoDup createDeck)). vm_compute. exact I. Qed.

(** ** The initial discard *)

Lemma redraw_not_eight fuel c fullDeck :
  rank c ≠ EIGHT → redraw fuel c fullDeck = Some (c, fullDeck).
Proof. intros Hc. destruct fuel; simpl; by rewrite decide_False. Qed.

(** With the last non-8 card [c] of the deck followed by 8s only, the loop
    puts the candidate and those 8s at the head, in their deck order, and
    ends on [c]. *)
Lemma redraw_rotates eights :
  ∀ fuel x pre c,
    Forall isEight eights → isEight x → rank c ≠ EIGHT →
    length eights < fuel →
    redraw fuel x (pre ++ c :: eights) = Some (c, eights ++ x :: pre).
Proof.
  induction eights as [|e eights IH] using rev_ind;
    intros fuel x pre c Heights Hx Hc Hfuel.
  - destruct fuel as [|fuel]; [simpl in Hfuel; lia|].
    cbn [redraw]. rewrite decide_True by done.
    rewrite app_comm_cons, pop_snoc. by apply redraw_not_eight.
  - apply Forall_app in Heights as [Heights He].
    apply Forall_cons in He as [He _].
    rewrite length_app in Hfuel. simpl in Hfuel.
    destruct fuel as [|fuel]; [lia|].
    cbn [redraw]. rewrite decide_True by done.
    replace (x :: pre ++ c :: eights ++ [e])
      with (((x :: pre) ++ c :: eights) ++ [e])
      by (by rewrite <- app_assoc).
    rewrite pop_snoc, IH by (done || lia).
    by rewrite <- app_assoc.
Qed.

(** A deck with a card that is not an 8 splits at its last such card. *)
Lemma split_last_non_eight (l : list Card) :
  Exists (λ c, ¬ isEight c) l →
  ∃ pre c eights,
    l = pre ++ c :: eights ∧ rank c ≠ EIGHT ∧ Forall isEight eights.
Proof.
  induction l as [|x l IH] using rev_ind; intros Hex.
  - by apply Exists_nil in Hex.
  - destruct (decide (isEight x)) as [Hx|Hx].
    + apply Exists_app in Hex as [Hex|Hex].
      * destruct (IH Hex) as (pre & c & eights & -> & Hc & Heights).
        exists pre, c, (eights ++ [x]). split_and!; [|done|].
        -- by rewrite <- app_assoc.
        -- apply Forall_app. split; [done|]. by apply Forall_singleton.
      * apply Exists_cons in Hex as [Hex|Hex]; [done|].
        by apply Exists_nil in Hex.
    + exists l, x, []. by split_and!.
Qed.

(** Popping the deck and running the loop, in one step. *)
Lemma pop_redraw fuel pre c eights :
  rank c ≠ EIGHT → Forall isEight eights → length eights ≤ fuel →
  (pop (pre ++ c :: eights) ≫= λ '(fullDeck, initialDiscard),
     redraw fuel initialDiscard fullDeck)
  = Some (c, eights ++ pre).
Proof.
  intros Hc Heights Hfuel.
  destruct eights as [|e eights _] using rev_ind.
  - rewrite pop_snoc. simpl. by apply redraw_not_eight.
  - apply Forall_app in Heights as [Heights He].
    apply Forall_cons in He as [He _].
    rewrite length_app in Hfuel. simpl in Hfuel.
    replace (pre ++ c :: eights ++ [e]) with ((pre ++ c :: eights) ++ [e])
      by (by rewrite <- app_assoc).
    rewrite pop_snoc. simpl.
    rewrite redraw_rotates by (done || lia). by rewrite <- app_assoc.
Qed.

Lemma eights_bounded (l k : list Card) :
  Forall isEight k → length (filter isEight l) + length k
                      = length (filter isEight (l ++ k)).
Proof.
  intros Hk. rewrite filter_app, length_app. f_equal.
  induction Hk as [|x k Hx Hk IH]; [done|].
  rewrite filter_cons_True by done. simpl. by rewrite IH.
Qed.

(** What [initGame] computes from a shuffled deck: the two hands are the
    first and second eight cards; [pre ++ c :: eights] is the rest. *)
Lemma initGame_shape fuel rnd difficulty :
  4 ≤ fuel →
  ∃ pre c eights,
    drop 16 (shuffle rnd createDeck) = pre ++ c :: eights
    ∧ rank c ≠ EIGHT
    ∧ Forall isEight eights
    ∧ initGame fuel rnd difficulty
      = Some {| deck := eights ++ pre;
                playerHand := take 8 (shuffle rnd createDeck);
                aiHand := take 8 (drop 8 (shuffle rnd createDeck));
                discardPile := [c];
                currentSuit := Some (suit c);
                turn := player;
                status := playing;
                winner := None;
                difficulty := difficulty |}.
Proof.
  intros Hfuel.
  pose proof (shuffle_Permutation rnd createDeck) as Hperm.
  set (shuffled := shuffle rnd createDeck) in *.
  assert (Hlen : length shuffled = 52)
    by (by rewrite Hperm, createDeck_length).
  assert (Heights : length (filter isEight shuffled) = 4)
    by (by rewrite Hperm, createDeck_eights).
  rewrite <- (take_drop 16 shuffled) in Heights.
  rewrite filter_app, length_app in Heights.
  assert (Hex : Exists (λ c, ¬ isEight c) (drop 16 shuffled)).
  { apply (not_Forall_Exists isEight (dec:=isEight_dec)). intros Hall.
    assert (length (filter isEight (drop 16 shuffled)) = 36); [|lia].
    assert (Hrest : length (drop 16 shuffled) = 36)
      by (rewrite length_drop; lia).
    rewrite <- Hrest. f_equal. clear -Hall. induction Hall as [|x k Hx Hk IH]; [done|].
    rewrite filter_cons_True by done. by rewrite IH. }
  destruct (split_last_non_eight _ Hex) as (pre & c & eights & Hrest & Hc & He).
  exists pre, c, eights. split_and!; try done.
  assert (length eights ≤ fuel).
  { rewrite Hrest in Heights.
    replace (pre ++ c :: eights) with ((pre ++ [c]) ++ eights) in Heights
      by (by rewrite <- app_assoc).
    rewrite <- eights_bounded in Heights by done. lia. }
  unfold initGame. fold shuffled. clearbody shuffled. rewrite drop_drop.
  change (8 + 8) with 16. rewrite Hrest.
  pose proof (pop_redraw fuel pre c eights Hc He H) as Hloop.
  destruct (pop (pre ++ c :: eights)) as [[fullDeck initialDiscard]|];
    simpl in Hloop; [|done].
  simpl. by rewrite Hloop.
Qed.

(** C4. For every difficulty and every random source, [initGame] (with
    room for four turns of its loop) yields a state with the first eight
    cards of the shuffled deck as the player's hand, the next eight as the
    computer's hand, a one-card discard pile whose card is not an 8, the
    other 35 cards in the deck, the current suit that of the discard card,
    the player to move and status [playing].  The discard card is the last
    card of the rest that is not an 8; the 8s that followed it were put
    back at the head of the deck. *)
Theorem initGame_deals (fuel : nat) (rnd : nat → nat)
    (level : Difficulty) :
  4 ≤ fuel →
  ∃ s top pre eights,
    initGame fuel rnd level = Some s
    ∧ playerHand s = take 8 (shuffle rnd createDeck)
    ∧ aiHand s = take 8 (drop 8 (shuffle rnd createDeck))
    ∧ length (playerHand s) = 8
    ∧ length (aiHand s) = 8
    ∧ discardPile s = [top]
    ∧ rank top ≠ EIGHT
    ∧ length (deck s) = 35
    ∧ drop 16 (shuffle rnd createDeck) = pre ++ top :: eights
    ∧ Forall isEight eights
    ∧ deck s = eights ++ pre
    ∧ currentSuit s = Some (suit top)
    ∧ turn s = player
    ∧ status s = playing
    ∧ winner s = None
    ∧ difficulty s = level.
Proof.
  intros Hfuel.
  destruct (initGame_shape fuel rnd level Hfuel)
    as (pre & c & eights & Hrest & Hc & He & Hinit).
  pose proof (shuffle_Permutation rnd createDeck) as Hperm.
  assert (Hlen : length (shuffle rnd createDeck) = 52)
    by (by rewrite Hperm, createDeck_length).
  eexists _, c, pre, eights. split; [exact Hinit|].
  cbn [playerHand aiHand discardPile deck currentSuit turn status winner
       difficulty].
  split_and!; try done.
  - rewrite length_take. lia.
  - rewrite length_take, length_drop. lia.
  - apply (f_equal length) in Hrest.
    rewrite length_drop, Hlen, !length_app in Hrest. simpl in Hrest.
    rewrite length_app. lia.
Qed.

(** ** Conservation of the cards *)

Lemma createDeck_id_inj c c' :
  c ∈ createDeck → c' ∈ createDeck → id c = id c' → c = c'.
Proof.
  assert (Hall : Forall (λ c, Forall (λ c', id c = id c' → c = c') createDeck)
                        createDeck).
  { apply (bool_decide_unpack _). vm_compute. exact I. }
  intros Hc Hc'. rewrite Forall_forall in Hall.
  specialize (Hall c Hc). rewrite Forall_forall in Hall. by apply Hall.
Qed.

Lemma filter_id_keeps (card : Card) (l : list Card) :
  card ∈ createDeck → l ⊆ createDeck → card ∉ l →
  filter (λ c, id c ≠ id card) l = l.
Proof.
  intros Hcard Hsub Hnotin. apply filter_id_absent.
  intros (c & Hid & Hc)%list_elem_of_fmap. apply Hnotin.
  by rewrite (createDeck_id_inj card c) by auto.
Qed.

(** Filtering a duplicate-free hand of deck cards by the id of one of its
    cards removes exactly that card. *)
Lemma filter_id_removes (card : Card) (l : list Card) :
  NoDup l → l ⊆ createDeck → card ∈ l →
  l ≡ₚ card :: filter (λ c, id c ≠ id card) l.
Proof.
  intros Hnodup Hsub Hin.
  assert (Hcard : card ∈ createDeck) by (by apply Hsub).
  induction l as [|x l IH]; [by apply elem_of_nil in Hin|].
  apply NoDup_cons in Hnodup as [Hx Hnodup].
  assert (Hsub' : l ⊆ createDeck).
  { intros y Hy. apply Hsub. by right. }
  destruct (decide (x = card)) as [->|Hne].
  - rewrite filter_cons_False by (intros Hid; by apply Hid).
    by rewrite filter_id_keeps.
  - apply elem_of_cons in Hin as [->|Hin]; [done|].
    rewrite filter_cons_True.
    + rewrite Permutation_swap. f_equiv. by apply IH.
    + intros Hid. apply Hne, createDeck_id_inj; [|done..].
      apply Hsub. by left.
Qed.

Lemma conserved_NoDup s : conserved s → NoDup (allCards s).
Proof. intros [Hperm _]. rewrite Hperm. apply createDeck_NoDup. Qed.

Lemma conserved_sizes s :
  conserved s →
  length (deck s) + length (playerHand s) + length (aiHand s)
  + length (discardPile s) = 52.
Proof.
  intros [Hperm _]. apply Permutation_length in Hperm.
  unfold allCards in Hperm. rewrite !length_app, createDeck_length in Hperm.
  lia.
Qed.

Lemma deal_Permutation (shuffled pre eights : list Card) (c : Card) :
  drop 16 shuffled = pre ++ c :: eights →
  (eights ++ pre) ++ take 8 shuffled ++ take 8 (drop 8 shuffled) ++ [c]
  ≡ₚ shuffled.
Proof.
  intros Hrest.
  assert (Hsplit : shuffled
                   = take 8 shuffled ++ take 8 (drop 8 shuffled)
                     ++ pre ++ c :: eights).
  { rewrite <- Hrest. change 16 with (8 + 8).
    by rewrite <- drop_drop, !take_drop. }
  revert Hsplit.
  generalize (take 8 shuffled), (take 8 (drop 8 shuffled)).
  intros dealtPlayer dealtAi ->. solve_Permutation.
Qed.

Lemma initGame_conserved fuel rnd difficulty :
  4 ≤ fuel →
  ∃ s, initGame fuel rnd difficulty = Some s ∧ conserved s.
Proof.
  intros Hfuel.
  destruct (initGame_shape fuel rnd difficulty Hfuel)
    as (pre & c & eights & Hrest & _ & _ & Hinit).
  eexists. split; [exact Hinit|]. split.
  - etrans; [|apply (shuffle_Permutation rnd createDeck)].
    by apply deal_Permutation.
  - discriminate.
Qed.

Lemma drawCard_conserved target s :
  conserved s → ∃ s', drawCard target s = Some s' ∧ conserved s'.
Proof.
  intros [Hperm Hpile].
  destruct (deck s) as [|drawn newDeck _] eqn:Hdeck using rev_ind.
  - eexists. split; [by apply drawCard_empty|].
    split; [|done]. unfold allCards in *. simpl. by rewrite <- Hperm, Hdeck.
  - destruct (discardPile s) as [|top pile _] eqn:Hdiscard using rev_ind;
      [done|].
    eexists. split; [by eapply drawCard_draws|].
    split; simpl; [|by rewrite Hdiscard; destruct pile].
    rewrite <- Hperm. unfold allCards. simpl. rewrite Hdeck, Hdiscard.
    destruct target; solve_Permutation.
Qed.

Lemma playCard_conserved card target s :
  conserved s → card ∈ hand target s → conserved (playCard card target s).
Proof.
  intros Hinv Hin. pose proof (conserved_NoDup s Hinv) as Hnodup.
  destruct Hinv as [Hperm Hpile].
  assert (Hsub : hand target s ⊆ createDeck).
  { intros c Hc. rewrite <- Hperm. unfold allCards.
    rewrite !elem_of_app. destruct target; simpl in Hc; auto. }
  assert (Hnd : NoDup (hand target s)).
  { unfold allCards in Hnodup.
    apply NoDup_app in Hnodup as (_ & _ & Hnodup).
    apply NoDup_app in Hnodup as (Hp & _ & Hnodup).
    apply NoDup_app in Hnodup as (Ha & _ & _). by destruct target. }
  pose proof (filter_id_removes card _ Hnd Hsub Hin) as Hsplit.
  split.
  - rewrite <- Hperm. unfold allCards.
    rewrite playCard_deck, playCard_discardPile.
    pose proof (playCard_hand card target s) as Hnew.
    pose proof (playCard_hand_other card target s) as Hold.
    set (rest := filter (λ c, id c ≠ id card) (hand target s)) in *.
    clearbody rest.
    destruct target; simpl in *; rewrite Hnew, Hold, Hsplit;
      solve_Permutation.
  - rewrite playCard_discardPile. by destruct (discardPile s).
Qed.

Lemma selectSuit_conserved suit s :
  conserved s → conserved (selectSuit suit s).
Proof. by intros [Hperm Hpile]. Qed.

Lemma run_conserved fuel acts :
  4 ≤ fuel →
  ∀ s, conserved s → playsFromHand fuel acts s →
       ∃ s', run fuel acts s = Some s' ∧ conserved s'.
Proof.
  intros Hfuel. induction acts as [|a acts IH]; intros s Hinv Hplays.
  - by exists s.
  - destruct Hplays as [Hplay Hrest].
    assert (Hstep : ∃ s1, dispatch fuel a s = Some s1 ∧ conserved s1).
    { destruct a as [rnd d|target|card target|suit]; simpl.
      - by apply initGame_conserved.
      - by apply drawCard_conserved.
      - eexists. split; [done|]. by apply playCard_conserved.
      - eexists. split; [done|]. by apply selectSuit_conserved. }
    destruct Hstep as (s1 & Hs1 & Hinv1). rewrite Hs1 in Hrest.
    destruct (IH s1 Hinv1 Hrest) as (s' & Hrun & Hinv').
    exists s'. split; [|done]. simpl. by rewrite Hs1.
Qed.

(** C1, as the code has it.  From any fresh deal, every sequence of Start,
    Draw, Play and ChooseSuit actions in which each Play names a card its
    target holds at that moment runs to a state whose four piles together
    are a permutation of the 52 cards of [createDeck]: no card is
    duplicated or lost, and the four sizes sum to 52. *)
Theorem cards_conserved (fuel : nat) (rnd : nat → nat)
    (difficulty : Difficulty) (acts : list Action) (s0 : GameState) :
  4 ≤ fuel →
  initGame fuel rnd difficulty = Some s0 →
  playsFromHand fuel acts s0 →
  ∃ s, run fuel acts s0 = Some s
       ∧ allCards s ≡ₚ createDeck
       ∧ NoDup (allCards s)
       ∧ length (deck s) + length (playerHand s) + length (aiHand s)
         + length (discardPile s) = 52.
Proof.
  intros Hfuel Hinit Hplays.
  destruct (initGame_conserved fuel rnd difficulty Hfuel)
    as (s0' & Hinit' & Hinv0).
  rewrite Hinit in Hinit'. injection Hinit' as <-.
  destruct (run_conserved fuel acts Hfuel s0 Hinv0 Hplays)
    as (s & Hrun & Hinv).
  exists s. split_and!; [done|apply Hinv|..].
  - by apply conserved_NoDup.
  - by apply conserved_sizes.
Qed.

(** * The properties on the sample games *)

Lemma dealt_is_a_deal : initGame 4 alwaysFirst normal = Some dealt.
Proof. vm_compute. reflexivity. Qed.

Lemma cards_conserved_witness :
  ∃ s, run 4 (twoPlays ++ sixDraws ++ [ChooseSuit CLUBS]) dealt = Some s
       ∧ allCards s ≡ₚ createDeck
       ∧ NoDup (allCards s)
       ∧ length (deck s) + length (playerHand s) + length (aiHand s)
         + length (discardPile s) = 52.
Proof.
  apply (cards_conserved 4 alwaysFirst normal).
  - lia.
  - vm_compute. reflexivity.
  - apply (bool_decide_unpack _). vm_compute. exact I.
Defined.

(** C1 fails for a [Play] from outside the hand: the king of spades lies in
    the deck of the fresh deal; played for the player it is on the discard
    pile as well, and the piles hold 53 cards. *)
Lemma play_outside_hand_duplicates :
  initGame 4 alwaysFirst normal = Some dealt
  ∧ (makeCard SPADES KING ∉ playerHand dealt)
  ∧ ∃ s, run 4 [Play (makeCard SPADES KING) player] dealt = Some s
         ∧ makeCard SPADES KING ∈ deck s
         ∧ makeCard SPADES KING ∈ discardPile s
         ∧ length (deck s) + length (playerHand s) + length (aiHand s)
           + length (discardPile s) = 53
         ∧ ¬ allCards s ≡ₚ createDeck
         ∧ ¬ NoDup (allCards s).
Proof.
  split; [vm_compute; reflexivity|].
  split; [apply (bool_decide_unpack _); vm_compute; exact I|].
  eexists. split; [reflexivity|].
  split; [apply (bool_decide_unpack _); vm_compute; exact I|].
  split; [apply (bool_decide_unpack _); vm_compute; exact I|].
  split; [vm_compute; reflexivity|].
  split.
  - intros Hperm. apply Permutation_length in Hperm.
    vm_compute in Hperm. discriminate Hperm.
  - apply (bool_decide_unpack _). vm_compute. exact I.
Qed.

Lemma playability_sites_agree_witness :
  canPlay (makeCard SPADES KING) (last (discardPile dealt)) dealt
    = Some false
  ∧ aiCandidate dealt (last (discardPile dealt)) (makeCard HEARTS KING)
    = Some true
  ∧ isPlayable dealt (makeCard HEARTS EIGHT) = true.
Proof.
  pose proof (playability_sites_agree dealt [] (makeCard HEARTS ACE)
                (makeCard SPADES KING) eq_refl) as (Hdraw & _).
  pose proof (playability_sites_agree dealt [] (makeCard HEARTS ACE)
                (makeCard HEARTS KING) eq_refl) as (_ & Hai & _).
  pose proof (playability_sites_agree dealt [] (makeCard HEARTS ACE)
                (makeCard HEARTS EIGHT) eq_refl) as (_ & _ & _ & Hui).
  split; [exact Hdraw|]. split; [exact Hai|exact Hui].
Defined.

(** C3 fails on [playCard]: after two legal plays the 2 of diamonds is the
    top card and diamonds the current suit; the player's 3 of hearts is not
    playable, yet [playCard] discards it, sets the suit to hearts and passes
    the turn.  The king of spades, which the player does not hold, is
    accepted as well. *)
Lemma playCard_accepts_illegal_move :
  run 4 twoPlays dealt = Some afterTwoPlays
  ∧ last (discardPile afterTwoPlays) = Some (makeCard DIAMONDS TWO)
  ∧ makeCard HEARTS THREE ∈ playerHand afterTwoPlays
  ∧ ¬ isPlayable_spec (makeCard HEARTS THREE) (makeCard DIAMONDS TWO)
        (currentSuit afterTwoPlays)
  ∧ playCard (makeCard HEARTS THREE) player afterTwoPlays ≠ afterTwoPlays
  ∧ (makeCard HEARTS THREE
     ∉ playerHand (playCard (makeCard HEARTS THREE) player afterTwoPlays))
  ∧ last (discardPile
            (playCard (makeCard HEARTS THREE) player afterTwoPlays))
    = Some (makeCard HEARTS THREE)
  ∧ currentSuit (playCard (makeCard HEARTS THREE) player afterTwoPlays)
    = Some HEARTS
  ∧ turn (playCard (makeCard HEARTS THREE) player afterTwoPlays) = ai
  ∧ (makeCard SPADES KING ∉ playerHand afterTwoPlays)
  ∧ playCard (makeCard SPADES KING) player afterTwoPlays ≠ afterTwoPlays.
Proof.
  split_and!; try (vm_compute; reflexivity);
    try (apply (bool_decide_unpack _); vm_compute; exact I);
    apply playCard_changes.
Qed.

Lemma clickCard_guards_playCard_witness :
  clickCard (makeCard HEARTS THREE) afterTwoPlays = afterTwoPlays
  ∧ clickCard (makeCard HEARTS EIGHT) afterTwoPlays
    = playCard (makeCard HEARTS EIGHT) player afterTwoPlays.
Proof.
  split.
  - apply (proj1 (clickCard_guards_playCard (makeCard HEARTS THREE)
                    afterTwoPlays)).
    apply isPlayable_false. vm_compute. reflexivity.
  - apply (proj1 (proj2 (clickCard_guards_playCard (makeCard HEARTS EIGHT)
                           afterTwoPlays))).
    vm_compute. reflexivity.
Defined.

Lemma initGame_deals_witness :
  ∃ s top pre eights,
    initGame 4 alwaysFirst hard = Some s
    ∧ playerHand s = take 8 (shuffle alwaysFirst createDeck)
    ∧ aiHand s = take 8 (drop 8 (shuffle alwaysFirst createDeck))
    ∧ length (playerHand s) = 8
    ∧ length (aiHand s) = 8
    ∧ discardPile s = [top]
    ∧ rank top ≠ EIGHT
    ∧ length (deck s) = 35
    ∧ drop 16 (shuffle alwaysFirst createDeck) = pre ++ top :: eights
    ∧ Forall isEight eights
    ∧ deck s = eights ++ pre
    ∧ currentSuit s = Some (suit top)
    ∧ turn s = player
    ∧ status s = playing
    ∧ winner s = None
    ∧ difficulty s = hard.
Proof. apply (initGame_deals 4 alwaysFirst hard). lia. Defined.

Lemma playCard_last_card_wins_witness :
  status (playCard (makeCard SPADES EIGHT) ai endgame) = game_over
  ∧ winner (playCard (makeCard SPADES EIGHT) ai endgame) = Some ai
  ∧ currentSuit (playCard (makeCard SPADES EIGHT) ai endgame)
    = Some DIAMONDS
  ∧ turn (playCard (makeCard SPADES EIGHT) ai endgame) = ai.
Proof.
  rewrite (playCard_last_card_wins (makeCard SPADES EIGHT) ai endgame)
    by (vm_compute; reflexivity).
  repeat split.
Defined.

Lemma drawCard_behaviour_witness :
  (∃ s', drawCard ai endgame = Some s'
     ∧ deck s' = [] ∧ playerHand s' = playerHand endgame
     ∧ aiHand s' = aiHand endgame
     ∧ discardPile s' = discardPile endgame
     ∧ currentSuit s' = currentSuit endgame
     ∧ status s' = status endgame ∧ winner s' = winner endgame
     ∧ turn s' = player)
  ∧ (∃ s', drawCard player dealt = Some s'
       ∧ deck s' = take 34 (deck dealt)
       ∧ playerHand s' = playerHand dealt ++ [makeCard SPADES KING]
       ∧ turn s' = ai).
Proof.
  split.
  - apply (proj1 (drawCard_behaviour ai endgame)). reflexivity.
  - destruct (proj2 (drawCard_behaviour player dealt)
                (take 34 (deck dealt)) (makeCard SPADES KING)
                [] (makeCard HEARTS ACE) eq_refl eq_refl)
      as (s' & Hdraw & Hdeck & Hhand & _ & _ & _ & _ & _ & _ & Hpass & _).
    exists s'. split_and!; [done..|].
    apply Hpass. apply (bool_decide_unpack _). vm_compute. exact I.
Defined.

(** C7 fails on a tie: after the draws the computer holds four hearts, four
    diamonds and the 8 of spades; it plays the 8, hearts and diamonds are
    equally frequent in what remains, and the new suit is diamonds, not
    hearts. *)
Lemma ai_eight_tie_goes_to_later_suit :
  run 4 sixDraws dealt = Some afterSixDraws
  ∧ makeCard SPADES EIGHT ∈ aiHand afterSixDraws
  ∧ occurrences HEARTS
      (aiHand (playCard (makeCard SPADES EIGHT) ai afterSixDraws)) = 4
  ∧ occurrences DIAMONDS
      (aiHand (playCard (makeCard SPADES EIGHT) ai afterSixDraws)) = 4
  ∧ occurrences CLUBS
      (aiHand (playCard (makeCard SPADES EIGHT) ai afterSixDraws)) = 0
  ∧ occurrences SPADES
      (aiHand (playCard (makeCard SPADES EIGHT) ai afterSixDraws)) = 0
  ∧ suitIndex HEARTS < suitIndex DIAMONDS
  ∧ currentSuit (playCard (makeCard SPADES EIGHT) ai afterSixDraws)
    = Some DIAMONDS
  ∧ currentSuit (playCard (makeCard SPADES EIGHT) ai afterSixDraws)
    ≠ Some HEARTS.
Proof.
  split_and!; try (vm_compute; reflexivity);
    try (apply (bool_decide_unpack _); vm_compute; exact I).
Qed.

Lemma ai_eight_picks_most_frequent_suit_witness :
  ∃ x, currentSuit (playCard (makeCard SPADES EIGHT) ai afterSixDraws)
       = Some x
       ∧ (∀ y, occurrences y
                 (aiHand (playCard (makeCard SPADES EIGHT) ai afterSixDraws))
               ≤ occurrences x
                   (aiHand (playCard (makeCard SPADES EIGHT) ai
                              afterSixDraws)))
       ∧ (∀ y, suitIndex x < suitIndex y →
               occurrences y
                 (aiHand (playCard (makeCard SPADES EIGHT) ai afterSixDraws))
               < occurrences x
                   (aiHand (playCard (makeCard SPADES EIGHT) ai
                              afterSixDraws)))
       ∧ aiHand (playCard (makeCard SPADES EIGHT) ai afterSixDraws)
         = filter (λ c, id c ≠ id (makeCard SPADES EIGHT))
                  (aiHand afterSixDraws)
       ∧ turn (playCard (makeCard SPADES EIGHT) ai afterSixDraws) = player
       ∧ status (playCard (makeCard SPADES EIGHT) ai afterSixDraws)
         = playing.
Proof.
  apply (ai_eight_picks_most_frequent_suit (makeCard SPADES EIGHT)
           afterSixDraws).
  - reflexivity.
  - vm_compute. discriminate.
Defined.

Lemma hard_plays_most_frequent_suit_witness :
  ∃ before c after,
    filter (λ c, rank c ≠ EIGHT)
      (filter (λ c, isPlayable_spec c (makeCard DIAMONDS FIVE)
                      (currentSuit hardGame))
              (aiHand hardGame))
    = before ++ c :: after
    ∧ aiMove 0 hardGame = Some (PlayCard c)
    ∧ aiTurn 0 hardGame = Some (playCard c ai hardGame)
    ∧ Forall (λ c', occurrences (suit c') (aiHand hardGame)
                    < occurrences (suit c) (aiHand hardGame)) before
    ∧ Forall (λ c', occurrences (suit c') (aiHand hardGame)
                    ≤ occurrences (suit c) (aiHand hardGame)) after.
Proof.
  apply (proj1 (hard_plays_most_frequent_suit 0 hardGame
                  [makeCard DIAMONDS SEVEN] (makeCard DIAMONDS FIVE)
                  eq_refl eq_refl eq_refl eq_refl)).
  vm_compute. discriminate.
Defined.

(** C9 fails on [selectSuit]: in the fresh deal the status is [playing]
    and the player is to move; [selectSuit] nevertheless sets the suit and
    hands the turn to the computer. *)
Lemma selectSuit_outside_choosing_suit :
  status dealt = playing
  ∧ turn dealt = player
  ∧ currentSuit dealt = Some HEARTS
  ∧ selectSuit SPADES dealt ≠ dealt
  ∧ currentSuit (selectSuit SPADES dealt) = Some SPADES
  ∧ turn (selectSuit SPADES dealt) = ai.
Proof.
  split_and!; try reflexivity.
  intros Heq. apply (f_equal turn) in Heq. discriminate Heq.
Qed.

Lemma selectSuit_unguarded_witness :
  clickSuit HEARTS choosing = selectSuit HEARTS choosing
  ∧ clickSuit SPADES dealt = dealt.
Proof.
  split.
  - apply (proj1 (proj2 (selectSuit_unguarded HEARTS choosing))).
    reflexivity.
  - apply (proj2 (proj2 (selectSuit_unguarded SPADES dealt))).
    discriminate.
Defined.

Lemma playCard_never_validates_witness :
  hand player (playCard (makeCard SPADES KING) player dealt)
  = hand player dealt
  ∧ turn (playCard (makeCard SPADES KING) player dealt) = other player
  ∧ currentSuit (playCard (makeCard SPADES KING) player dealt)
    = Some SPADES.
Proof.
  destruct (playCard_never_validates (makeCard SPADES KING) player dealt)
    as (_ & _ & _ & _ & _ & Hforeign).
  apply Hforeign.
  - apply (bool_decide_unpack _). vm_compute. exact I.
  - discriminate.
Defined.

(** * Further properties of the code *)

(** ** [createDeck] and [shuffle] *)

(** X1. [createDeck] lists each suit-rank pair exactly once, suit by suit in
    the order of [SUITS] and within a suit in the order of [RANKS]: 52
    distinct cards with 52 distinct ids, each the card [makeCard] builds
    from its own suit and rank. *)
Theorem createDeck_complete :
  length createDeck = 52
  ∧ NoDup createDeck
  ∧ NoDup (id <$> createDeck)
  ∧ (∀ s r, createDeck !! (13 * suitIndex s + rankIndex r)
            = Some (makeCard s r))
  ∧ (∀ c, c ∈ createDeck → c = makeCard (suit c) (rank c)).
Proof.
  split_and!.
  - reflexivity.
  - apply createDeck_NoDup.
  - apply (bool_decide_unpack _). vm_compute. exact I.
  - intros [] []; reflexivity.
  - apply Forall_forall. apply (bool_decide_unpack _). vm_compute. exact I.
Qed.

(** X2. Whatever the random source, [shuffle] returns a permutation of the
    deck it is given: as many cards, and no duplicates if there were none. *)
Theorem shuffle_permutes (rnd : nat → nat) (deck : list Card) :
  shuffle rnd deck ≡ₚ deck
  ∧ length (shuffle rnd deck) = length deck
  ∧ (NoDup deck → NoDup (shuffle rnd deck)).
Proof.
  pose proof (shuffle_Permutation rnd deck) as Hperm.
  split_and!; [done|by rewrite Hperm|].
  intros Hnodup. by rewrite Hperm.
Qed.

Lemma swap_same a i : swap a i i = a.
Proof.
  unfold swap. destruct (a !! i) as [x|] eqn:Hi; [|done].
  by rewrite !list_insert_id
    by (done || by rewrite list_insert_id).
Qed.

(** X3. A random source that picks at every iteration the index of the
    iteration itself makes [shuffle] swap each card with itself: the deck
    comes back in its order.  A deck of fewer than two cards comes back
    unchanged whatever the source, as the loop does not run. *)
Theorem shuffle_fixed_points (rnd : nat → nat) (deck : list Card) :
  ((∀ i, rnd i `mod` (i + 1) = i) → shuffle rnd deck = deck)
  ∧ (length deck ≤ 1 → shuffle rnd deck = deck).
Proof.
  split.
  - intros Hself. unfold shuffle. generalize (length deck - 1). intros n.
    revert deck. induction n as [|n IH]; intros deck; [done|].
    cbn [shuffle_loop]. rewrite Hself, swap_same. apply IH.
  - intros Hlen. unfold shuffle.
    by replace (length deck - 1) with 0 by lia.
Qed.

Lemma swap_length a i j : length (swap a i j) = length a.
Proof.
  unfold swap. destruct (a !! j); [|done]. destruct (a !! i); [|done].
  by rewrite !length_insert.
Qed.

Lemma swap_app a b i j :
  i < length a → j < length a → swap (a ++ b) i j = swap a i j ++ b.
Proof.
  intros Hi Hj. unfold swap. rewrite !lookup_app_l by done.
  destruct (a !! j) as [at_j|]; [|done].
  destruct (a !! i) as [at_i|]; [|done].
  rewrite (insert_app_l a b i) by done.
  by rewrite insert_app_l by (by rewrite length_insert).
Qed.

(** The iterations below [i] leave the cards from position [i + 1] on
    alone. *)
Lemma shuffle_loop_app rnd i a b :
  i < length a →
  shuffle_loop rnd i (a ++ b) = shuffle_loop rnd i a ++ b.
Proof.
  revert a. induction i as [|i IH]; intros a Hi; [done|].
  cbn [shuffle_loop].
  assert (rnd (S i) `mod` (S i + 1) < S i + 1) by (apply Nat.mod_upper_bound; lia).
  rewrite swap_app by lia. apply IH. rewrite swap_length. lia.
Qed.

Lemma shuffle_loop_ext rnd rnd' i a :
  (∀ k, k ≤ i → rnd k = rnd' k) →
  shuffle_loop rnd i a = shuffle_loop rnd' i a.
Proof.
  revert a. induction i as [|i IH]; intros a Heq; [done|].
  cbn [shuffle_loop]. rewrite (Heq (S i)) by lia. apply IH.
  intros k Hk. apply Heq. lia.
Qed.

(** Swapping position [j] with the last position brings the card at [j]
    to the end. *)
Lemma swap_to_end a m j x :
  length a = S m → a !! j = Some x →
  ∃ a', swap a m j = a' ++ [x] ∧ length a' = m.
Proof.
  intros Hlen Hj.
  assert (Hjm : j < S m) by (rewrite <- Hlen; by eapply lookup_lt_Some).
  destruct (lookup_lt_is_Some_2 a m) as [y Hm]; [lia|].
  assert (Hlast : swap a m j !! m = Some x).
  { unfold swap. rewrite Hj, Hm. destruct (decide (j = m)) as [->|Hne].
    - rewrite list_lookup_insert_eq by (rewrite length_insert; lia).
      congruence.
    - rewrite list_lookup_insert_ne by done.
      apply list_lookup_insert_eq. lia. }
  exists (take m (swap a m j)). split.
  - rewrite <- (take_S_r _ _ _ Hlast).
    by rewrite take_ge by (rewrite swap_length; lia).
  - rewrite length_take, swap_length. lia.
Qed.

Lemma shuffle_loop_reaches n :
  ∀ deck target : list Card,
    length deck = n → target ≡ₚ deck →
    ∃ rnd, shuffle_loop rnd (n - 1) deck = target.
Proof.
  induction n as [|m IH]; intros deck target Hlen Hperm.
  - apply nil_length_inv in Hlen as ->.
    apply Permutation_nil_r in Hperm as ->. by exists alwaysFirst.
  - destruct target as [|x t _] using rev_ind.
    { apply Permutation_length in Hperm. rewrite Hlen in Hperm. done. }
    assert (Hx : x ∈ deck)
      by (rewrite <- Hperm; apply elem_of_app; right; constructor).
    apply list_elem_of_lookup in Hx as [j Hj].
    destruct (swap_to_end deck m j x Hlen Hj) as (deck' & Hswap & Hlen').
    assert (Hperm' : t ≡ₚ deck').
    { apply (Permutation_app_inv_r [x]).
      by rewrite Hperm, <- Hswap, swap_Permutation. }
    destruct (IH deck' t Hlen' Hperm') as [rnd' Hrnd'].
    destruct m as [|m].
    { destruct deck' as [|? ?]; [|done]. 
      apply Permutation_nil_r in Hperm' as ->.
      exists alwaysFirst. simpl in *.
      destruct deck as [|y [|? ?]]; try done.
      apply Permutation_singleton_r in Hperm. by rewrite Hperm. }
    exists (λ k, if decide (k = S m) then j else rnd' k).
    replace (S (S m) - 1) with (S m) by lia. cbn [shuffle_loop].
    rewrite decide_True by done.
    assert (Hjm : j < S m + 1).
    { apply lookup_lt_Some in Hj. lia. }
    rewrite (Nat.mod_small j) by done. rewrite Hswap.
    rewrite shuffle_loop_app by lia. f_equal.
    replace (S m - 1) with m in Hrnd' by lia. rewrite <- Hrnd'.
    apply shuffle_loop_ext. intros k Hk. by rewrite decide_False by lia.
Qed.

(** X4. Every ordering of a deck is the result of [shuffle] for some random
    source: no permutation is out of the shuffle's reach. *)
Theorem shuffle_reaches_every_order (deck target : list Card) :
  target ≡ₚ deck → ∃ rnd, shuffle rnd deck = target.
Proof. intros Hperm. by apply shuffle_loop_reaches. Qed.

(** ** The opponent on every difficulty *)

Lemma aiMove_unfold r state pile topCard :
  discardPile state = pile ++ [topCard] →
  aiMove r state
  = let playable :=
      filter (λ c, isPlayable_spec c topCard (currentSuit state))
             (aiHand state) in
    if bool_decide (playable ≠ []) then
      PlayCard <$>
        match difficulty state with
        | easy => playable !! (r `mod` length playable)
        | normal =>
            match list_find (λ c, rank c ≠ EIGHT) playable with
            | Some (_, nonEight) => Some nonEight
            | None => playable !! 0
            end
        | hard =>
            if bool_decide (filter (λ c, rank c ≠ EIGHT) playable ≠ [])
            then
              reduce (λ prev curr,
                        if decide (countSuits (aiHand state) (suit prev)
                                   < countSuits (aiHand state) (suit curr))
                        then curr else prev)
                     (filter (λ c, rank c ≠ EIGHT) playable)
            else playable !! 0
        end
    else Some DrawCard.
Proof.
  intros Hpile. unfold aiMove.
  rewrite (playableCards_top _ _ _ Hpile). cbn [mbind option_bind].
  rewrite !length_pos_bool. case_bool_decide; [|done].
  by destruct (difficulty state).
Qed.

Lemma filter_none {A} (P : A → Prop) `{!∀ x, Decision (P x)} (l : list A) :
  Forall (λ x, ¬ P x) l → filter P l = [].
Proof.
  induction 1 as [|x l Hx Hl IH]; [done|]. by rewrite filter_cons_False.
Qed.

Lemma reduce_elem_of {A} (f : A → A → A) (l : list A) (x : A) :
  (∀ a b, f a b = a ∨ f a b = b) → reduce f l = Some x → x ∈ l.
Proof.
  intros Hf. destruct l as [|a l]; [done|]. simpl. intros [= <-].
  revert a. induction l as [|b l IH]; intros a; simpl; [by left|].
  destruct (Hf a b) as [-> | ->].
  - specialize (IH a). apply elem_of_cons in IH as [->|IH]; [by left|].
    by do 2 right.
  - right. apply IH.
Qed.

(** With a top card the opponent draws when nothing in its hand is
    playable and otherwise plays a playable card of its hand. *)
Lemma aiMove_draws_or_plays (r : nat) (state : GameState) (pile : list Card)
    (topCard : Card) :
  discardPile state = pile ++ [topCard] →
  (Forall (λ c, ¬ isPlayable_spec c topCard (currentSuit state))
          (aiHand state)
   → aiMove r state = Some DrawCard)
  ∧ (Exists (λ c, isPlayable_spec c topCard (currentSuit state))
            (aiHand state)
     → ∃ c, aiMove r state = Some (PlayCard c)
            ∧ c ∈ aiHand state
            ∧ isPlayable_spec c topCard (currentSuit state)).
Proof.
  intros Hpile. rewrite (aiMove_unfold _ _ _ _ Hpile). cbn zeta.
  set (playable := filter _ (aiHand state)).
  split.
  - intros Hnone. rewrite bool_decide_eq_false_2; [done|].
    intros Hne. apply Hne. subst playable. by apply filter_none.
  - intros Hsome.
    assert (Hne : playable ≠ []).
    { apply Exists_exists in Hsome as (c & Hc & Hp).
      intros Hnil. assert (c ∈ playable) as Hin
        by (by apply list_elem_of_filter).
      rewrite Hnil in Hin. by apply elem_of_nil in Hin. }
    rewrite bool_decide_eq_true_2 by done.
    assert (Hin : ∀ c, c ∈ playable →
                       c ∈ aiHand state
                       ∧ isPlayable_spec c topCard (currentSuit state)).
    { intros c Hc. apply list_elem_of_filter in Hc. tauto. }
    assert (Hhead : ∃ c, playable !! 0 = Some c).
    { destruct playable; [done|]. by eexists. }
    destruct (difficulty state).
    + destruct (lookup_lt_is_Some_2 playable (r `mod` length playable))
        as [c Hc].
      { apply Nat.mod_upper_bound. by destruct playable. }
      exists c. rewrite Hc. split; [done|].
      apply Hin. by eapply list_elem_of_lookup_2.
    + destruct (list_find _ playable) as [[i c]|] eqn:Hfind.
      * exists c. split; [done|]. apply Hin.
        apply list_find_Some in Hfind as (Hc & _).
        by eapply list_elem_of_lookup_2.
      * destruct Hhead as [c Hc]. exists c. rewrite Hc. split; [done|].
        apply Hin. by eapply list_elem_of_lookup_2.
    + case_bool_decide as Hnon.
      * destruct (reduce_first_max
                    (λ c, countSuits (aiHand state) (suit c)) _ Hnon)
          as (before & c & after & Hsplit & Hred & _).
        exists c. rewrite Hred. split; [done|]. apply Hin.
        assert (c ∈ filter (λ c, rank c ≠ EIGHT) playable) as Hc.
        { rewrite Hsplit. apply elem_of_app. right. by left. }
        apply list_elem_of_filter in Hc. tauto.
      * destruct Hhead as [c Hc]. exists c. rewrite Hc. split; [done|].
        apply Hin. by eapply list_elem_of_lookup_2.
Qed.

(** X5. On every difficulty and for every random source, with a top card
    on the discard pile the opponent's decision does not throw: it is a
    draw only when no card of its hand is playable, and otherwise the play
    of a card that is in its hand and playable against the top card and the
    current suit. *)
Theorem aiMove_is_legal (r : nat) (state : GameState) (pile : list Card)
    (topCard : Card) :
  discardPile state = pile ++ [topCard] →
  ∃ move, aiMove r state = Some move
    ∧ match move with
      | DrawCard =>
          Forall (λ c, ¬ isPlayable_spec c topCard (currentSuit state))
                 (aiHand state)
      | PlayCard c =>
          c ∈ aiHand state
          ∧ isPlayable_spec c topCard (currentSuit state)
      end.
Proof.
  intros Hpile.
  destruct (aiMove_draws_or_plays r state pile topCard Hpile)
    as [Hdraw Hplay].
  destruct (decide (Exists (λ c, isPlayable_spec c topCard
                                   (currentSuit state)) (aiHand state)))
    as [Hsome|Hnone].
  - destruct (Hplay Hsome) as (c & Hmove & Hc & Hp).
    exists (PlayCard c). by split.
  - apply (not_Exists_Forall _) in Hnone.
    assert (Hall : Forall (λ c, ¬ isPlayable_spec c topCard
                                  (currentSuit state)) (aiHand state))
      by (eapply Forall_impl; [exact Hnone|done]).
    exists DrawCard. split; [by apply Hdraw|done].
Qed.

(** X6. On normal difficulty the opponent plays the first playable card, in
    hand order, that is not an 8; when all its playable cards are 8s it
    plays the first of them. *)
Theorem normal_prefers_first_non_eight (r : nat) (state : GameState)
    (pile : list Card) (topCard : Card) :
  difficulty state = normal →
  discardPile state = pile ++ [topCard] →
  (∀ before c after,
     filter (λ c, isPlayable_spec c topCard (currentSuit state))
            (aiHand state) = before ++ c :: after →
     Forall isEight before → rank c ≠ EIGHT →
     aiMove r state = Some (PlayCard c))
  ∧ (∀ c rest,
       filter (λ c, isPlayable_spec c topCard (currentSuit state))
              (aiHand state) = c :: rest →
       Forall isEight (c :: rest) →
       aiMove r state = Some (PlayCard c)).
Proof.
  intros Hnormal Hpile. rewrite (aiMove_unfold _ _ _ _ Hpile). cbn zeta.
  rewrite Hnormal. split.
  - intros before c after -> Hbefore Hc.
    rewrite bool_decide_eq_true_2 by (by destruct before).
    assert (Hfind : list_find (λ c, rank c ≠ EIGHT) (before ++ c :: after)
                    = Some (length before, c)).
    { apply list_find_Some. split_and!; [|done|].
      - by apply list_lookup_middle.
      - intros j y Hy Hj. rewrite lookup_app_l in Hy by done.
        rewrite Forall_forall in Hbefore. intros Hrank. apply Hrank.
        apply Hbefore. by eapply list_elem_of_lookup_2. }
    by rewrite Hfind.
  - intros c rest -> Hall. rewrite bool_decide_eq_true_2 by done.
    assert (Hfind : list_find (λ c, rank c ≠ EIGHT) (c :: rest) = None).
    { apply list_find_None. eapply Forall_impl; [exact Hall|].
      intros y Hy Hrank. by apply Hrank. }
    by rewrite Hfind.
Qed.

(** X7. On easy difficulty the opponent plays the playable card at position
    [r mod n] of its [n] playable cards, and every playable card of its
    hand is the choice for some value of the random source. *)
Theorem easy_picks_any_playable (r : nat) (state : GameState)
    (pile : list Card) (topCard : Card) :
  difficulty state = easy →
  discardPile state = pile ++ [topCard] →
  (∀ c,
     filter (λ c, isPlayable_spec c topCard (currentSuit state))
            (aiHand state)
     !! (r `mod` length (filter (λ c, isPlayable_spec c topCard
                                        (currentSuit state))
                                (aiHand state))) = Some c →
     aiMove r state = Some (PlayCard c))
  ∧ (∀ c, c ∈ aiHand state →
          isPlayable_spec c topCard (currentSuit state) →
          ∃ r', aiMove r' state = Some (PlayCard c)).
Proof.
  intros Heasy Hpile.
  assert (Hpick : ∀ r c,
    filter (λ c, isPlayable_spec c topCard (currentSuit state))
           (aiHand state)
    !! (r `mod` length (filter (λ c, isPlayable_spec c topCard
                                       (currentSuit state))
                               (aiHand state))) = Some c →
    aiMove r state = Some (PlayCard c)).
  { intros r0 c Hc. rewrite (aiMove_unfold _ _ _ _ Hpile). cbn zeta.
    rewrite Heasy, Hc.
    rewrite bool_decide_eq_true_2; [done|].
    intros Hnil. by rewrite Hnil in Hc. }
  split; [apply Hpick|].
  intros c Hc Hp.
  assert (Hin : c ∈ filter (λ c, isPlayable_spec c topCard
                                   (currentSuit state)) (aiHand state))
    by (by apply list_elem_of_filter).
  apply list_elem_of_lookup in Hin as [i Hi].
  exists i. apply Hpick.
  by rewrite Nat.mod_small by (by eapply lookup_lt_Some).
Qed.

(** X8. When it is the opponent's turn in status [playing], with a top card
    on the discard pile, the timer callback does not throw and never touches
    the player's hand or the difficulty; afterwards the status is [playing]
    again, never [choosing_suit], or it is [game_over] with the opponent as
    winner and its hand empty. *)
Theorem aiTurn_outcome (r : nat) (state : GameState) (pile : list Card)
    (topCard : Card) :
  status state = playing →
  turn state = ai →
  discardPile state = pile ++ [topCard] →
  ∃ state', aiTurn r state = Some state'
    ∧ playerHand state' = playerHand state
    ∧ difficulty state' = difficulty state
    ∧ (status state' = playing ∧ winner state' = winner state
       ∨ status state' = game_over ∧ winner state' = Some ai
         ∧ aiHand state' = []).
Proof.
  intros Hstatus Hturn Hpile. unfold aiTurn.
  rewrite Hstatus, Hturn, !bool_decide_eq_true_2 by done. cbn [andb].
  destruct (decide (Exists (λ c, isPlayable_spec c topCard
                                   (currentSuit state)) (aiHand state)))
    as [Hsome|Hnone].
  - destruct (proj2 (aiMove_draws_or_plays r state pile topCard Hpile) Hsome)
      as (c & -> & _). cbn [mbind option_bind].
    eexists. split; [done|].
    destruct (decide (filter (λ c', id c' ≠ id c) (aiHand state) = []))
      as [Hempty|Hrest].
    + unfold playCard. cbn [hand]. rewrite Hempty. simpl.
      split_and!; [done..|]. by right.
    + rewrite (playCard_continues c ai state Hrest). simpl.
      split_and!; [done..|]. left.
      rewrite bool_decide_eq_false_2; [done|]. by intros [_ ?].
  - apply (not_Exists_Forall _) in Hnone.
    rewrite (proj1 (aiMove_draws_or_plays r state pile topCard Hpile))
      by (eapply Forall_impl; [exact Hnone|done]).
    cbn [mbind option_bind].
    destruct (deck state) as [|drawn newDeck _] eqn:Hdeck using rev_ind.
    + rewrite (drawCard_empty ai state Hdeck). eexists. split; [done|].
      simpl. split_and!; [done..|]. by left.
    + rewrite (drawCard_draws ai state newDeck drawn pile topCard Hdeck Hpile).
      eexists. split; [done|]. simpl. split_and!; [done..|]. by left.
Qed.

(** ** The human's affordances *)

Lemma handCandidate_top state topDiscard c :
  handCandidate state (Some topDiscard) c
  = Some (bool_decide (isPlayable_spec c topDiscard (currentSuit state))).
Proof.
  unfold handCandidate, isPlayable_spec.
  repeat case_bool_decide; simpl; try done; intuition congruence.
Qed.

Lemma someThrowing_total {A} (f : A → option bool) (P : A → Prop)
    `{!∀ x, Decision (P x)} (l : list A) :
  (∀ x, f x = Some (bool_decide (P x))) →
  someThrowing f l = Some (bool_decide (Exists P l)).
Proof.
  intros Hf. induction l as [|x l IH].
  - cbn [someThrowing].
    rewrite bool_decide_eq_false_2; [done|]. by intros ?%Exists_nil.
  - cbn [someThrowing]. rewrite Hf. cbn [mbind option_bind].
    destruct (decide (P x)) as [Hx|Hx].
    + rewrite (bool_decide_eq_true_2 (P x)) by done.
      rewrite bool_decide_eq_true_2; [done|]. by left.
    + rewrite (bool_decide_eq_false_2 (P x)) by done.
      rewrite IH. f_equal. apply bool_decide_ext. rewrite Exists_cons. tauto.
Qed.

Lemma canPlayerDraw_top state pile topDiscard :
  discardPile state = pile ++ [topDiscard] →
  canPlayerDraw state
  = Some (isPlayerTurn state
          && negb (bool_decide
                     (Exists (λ c, isPlayable_spec c topDiscard
                                     (currentSuit state))
                             (playerHand state)))).
Proof.
  intros Hpile. unfold canPlayerDraw. destruct (isPlayerTurn state); [|done].
  simpl. rewrite Hpile, last_snoc.
  by rewrite (someThrowing_total _ _ _ (handCandidate_top state topDiscard)).
Qed.

(** X9. With a top card on the discard pile, computing [canPlayerDraw] does
    not throw, and drawing is enabled exactly when it is the player's turn
    in status [playing] and none of the player's cards is enabled for
    play.  So on the player's turn either the draw pile or some card of the
    hand responds to a click. *)
Theorem draw_enabled_iff_no_card_enabled (state : GameState)
    (pile : list Card) (topDiscard : Card) :
  discardPile state = pile ++ [topDiscard] →
  ∃ enabled,
    canPlayerDraw state = Some enabled
    ∧ (enabled = true ↔
       isPlayerTurn state = true
       ∧ Forall (λ c, isPlayable state c = false) (playerHand state))
    ∧ (isPlayerTurn state = true → enabled = false →
       Exists (λ c, isPlayable state c = true) (playerHand state)).
Proof.
  intros Hpile. eexists. split; [by eapply canPlayerDraw_top|].
  assert (Hflag : ∀ c, isPlayable state c
                       = isPlayerTurn state
                         && bool_decide (isPlayable_spec c topDiscard
                                           (currentSuit state)))
    by (intros c; by eapply isPlayable_top).
  destruct (isPlayerTurn state) eqn:Hturn; simpl.
  - split.
    + rewrite negb_true_iff, bool_decide_eq_false. split.
      * intros Hnone. split; [done|].
        apply (not_Exists_Forall _) in Hnone.
        eapply Forall_impl; [exact Hnone|]. intros c Hc. rewrite Hflag.
        simpl. by apply bool_decide_eq_false.
      * intros [_ Hall] Hsome. apply Exists_exists in Hsome as (c & Hc & Hp).
        rewrite Forall_forall in Hall. specialize (Hall c Hc).
        rewrite Hflag in Hall. simpl in Hall.
        by apply bool_decide_eq_false in Hall.
    + intros _. rewrite negb_false_iff, bool_decide_eq_true.
      intros Hsome. eapply Exists_impl; [exact Hsome|].
      intros c Hc. rewrite Hflag. simpl. by apply bool_decide_eq_true.
  - split; [|done]. split; [done|]. by intros [? _].
Qed.

(** X10. With the deck exhausted and no playable card on either side, a
    click on the draw pile passes the turn to the opponent and the
    opponent's timer passes it back: the state after the two is the state
    before, so the game cannot end. *)
Theorem exhausted_deck_stalemate (r : nat) (state : GameState)
    (pile : list Card) (topCard : Card) :
  deck state = [] →
  status state = playing →
  turn state = player →
  discardPile state = pile ++ [topCard] →
  Forall (λ c, ¬ isPlayable_spec c topCard (currentSuit state))
         (playerHand state) →
  Forall (λ c, ¬ isPlayable_spec c topCard (currentSuit state))
         (aiHand state) →
  ∃ passed, clickDeck state = Some passed
            ∧ turn passed = ai
            ∧ aiTurn r passed = Some state.
Proof.
  intros Hdeck Hstatus Hturn Hpile Hplayer Hai.
  unfold clickDeck. rewrite (canPlayerDraw_top _ _ _ Hpile).
  unfold isPlayerTurn. rewrite Hstatus, Hturn.
  rewrite !bool_decide_eq_true_2 by done.
  rewrite (bool_decide_eq_false_2 (Exists _ _)).
  2:{ intros Hsome. apply Exists_exists in Hsome as (c & Hc & Hp).
      rewrite Forall_forall in Hplayer. by apply (Hplayer c Hc). }
  cbn [andb negb mbind option_bind].
  rewrite (drawCard_empty player state Hdeck), Hturn.
  eexists. split; [done|]. split; [done|].
  set (passed := {| deck := [] |}).
  assert (Hpile' : discardPile passed = pile ++ [topCard]) by done.
  unfold aiTurn. cbn [status turn passed other]. rewrite Hstatus.
  rewrite !bool_decide_eq_true_2 by done. cbn [andb].
  rewrite (proj1 (aiMove_draws_or_plays r passed pile topCard Hpile')) by done.
  cbn [mbind option_bind]. rewrite drawCard_empty by done.
  destruct state; simpl in *. by subst.
Qed.

(** X11. Once the game is over, and likewise after Back to Home, only the
    buttons that start a game, go home or pick a difficulty change the
    state: clicks on cards, on the draw pile and in the suit picker and the
    opponent's timer leave it as it is. *)
Theorem only_restart_moves_on (fuel : nat) (intent : Intent)
    (state : GameState) :
  (∀ rnd, intent ≠ NewGame rnd) →
  intent ≠ GoHome →
  (∀ d, intent ≠ PickDifficulty d) →
  (status state = game_over → handle fuel intent state = Some state)
  ∧ handle fuel intent (goToHome state) = Some (goToHome state).
Proof.
  intros Hnew Hhome Hpick.
  assert (Hidle : ∀ s, status s = game_over ∨ status s = waiting →
                       handle fuel intent s = Some s).
  { intros s Hs.
    assert (Hturn : isPlayerTurn s = false).
    { unfold isPlayerTurn. rewrite (bool_decide_eq_false_2 (status s = _));
        [apply andb_false_r|]. destruct Hs as [-> | ->]; done. }
    destruct intent as [rnd| |d|i| |suit|r]; simpl.
    - by destruct (Hnew rnd).
    - done.
    - by destruct (Hpick d).
    - destruct (playerHand s !! i) as [card|]; [|done].
      unfold clickCard, isPlayable. by rewrite Hturn.
    - unfold clickDeck, canPlayerDraw. by rewrite Hturn.
    - unfold clickSuit. rewrite bool_decide_eq_false_2; [done|].
      destruct Hs as [-> | ->]; done.
    - unfold aiTurn. rewrite (bool_decide_eq_false_2 (status s = _));
        [done|]. destruct Hs as [-> | ->]; done. }
  split.
  - intros Hover. apply Hidle. by left.
  - apply Hidle. by right.
Qed.

(** X12. When the player plays an enabled 8 and keeps at least one card,
    the status is [choosing_suit] and the turn is already the opponent's,
    but the opponent's timer, the cards and the draw pile do nothing in that
    status; the pick of a suit then sets the current suit, returns to status
    [playing] with the opponent to move, and moves no card. *)
Theorem eight_then_suit (fuel r i : nat) (card : Card) (chosen : Suit)
    (state : GameState) :
  isPlayable state card = true →
  rank card = EIGHT →
  filter (λ c, id c ≠ id card) (playerHand state) ≠ [] →
  status (clickCard card state) = choosing_suit
  ∧ turn (clickCard card state) = ai
  ∧ currentSuit (clickCard card state) = Some (suit card)
  ∧ handle fuel (AiTimer r) (clickCard card state)
    = Some (clickCard card state)
  ∧ handle fuel ClickDeck (clickCard card state)
    = Some (clickCard card state)
  ∧ handle fuel (ClickCard i) (clickCard card state)
    = Some (clickCard card state)
  ∧ status (clickSuit chosen (clickCard card state)) = playing
  ∧ turn (clickSuit chosen (clickCard card state)) = ai
  ∧ currentSuit (clickSuit chosen (clickCard card state)) = Some chosen
  ∧ allCards (clickSuit chosen (clickCard card state))
    = allCards (clickCard card state).
Proof.
  intros Hplayable Height Hrest.
  assert (Hplay : clickCard card state = playCard card player state)
    by (unfold clickCard; by rewrite Hplayable).
  rewrite !Hplay. clear Hplay.
  rewrite (playCard_continues card player state Hrest).
  set (chosing := {| deck := deck state |}).
  assert (Hstatus : status chosing = choosing_suit).
  { subst chosing. cbn [status]. by rewrite bool_decide_eq_true_2. }
  assert (Hidle : isPlayerTurn chosing = false).
  { unfold isPlayerTurn. rewrite Hstatus. apply andb_false_r. }
  split; [done|]. split; [done|].
  split.
  { subst chosing. cbn [currentSuit].
    rewrite bool_decide_eq_false_2; [done|]. by intros [_ ?]. }
  split; [cbn [handle]; unfold aiTurn; by rewrite Hstatus|].
  split; [cbn [handle]; unfold clickDeck, canPlayerDraw; by rewrite Hidle|].
  split.
  { cbn [handle]. destruct (playerHand chosing !! i); [|done].
    unfold clickCard, isPlayable. by rewrite Hidle. }
  unfold clickSuit. by rewrite Hstatus.
Qed.

(** ** Piles and the suit badge *)

Lemma initGame_Some_shape fuel rnd level s0 :
  initGame fuel rnd level = Some s0 →
  ∃ top, discardPile s0 = [top] ∧ currentSuit s0 = Some (suit top)
         ∧ rank top ≠ EIGHT.
Proof.
  unfold initGame. generalize (shuffle rnd createDeck). intros shuffled.
  destruct (pop _) as [[fullDeck initialDiscard]|]; [|done].
  cbn [mbind option_bind].
  destruct (redraw fuel initialDiscard fullDeck) as [[top rest]|] eqn:Hloop;
    [|done].
  cbn [mbind option_bind]. intros [= <-]. exists top.
  split; [done|]. split; [done|].
  clear -Hloop. revert initialDiscard fullDeck Hloop.
  induction fuel as [|fuel IH]; intros c l; cbn [redraw];
    case_decide as Hc; try done; try (by intros [= <- <-]).
  destruct (pop (c :: l)) as [[l' c']|]; [|done]. apply IH.
Qed.

(** X13. The suit badge over the discard pile is hidden right after a deal
    and after a play of a card that is not an 8 and leaves cards in the
    hand.  After the player's 8 and the choice of a suit it is shown
    exactly when the chosen suit differs from the suit of that 8. *)
Theorem suit_badge_shows_overridden_suit (fuel : nat) (rnd : nat → nat)
    (level : Difficulty) (card : Card) (target : Side) (chosen : Suit)
    (s : GameState) :
  (∀ s0, initGame fuel rnd level = Some s0 → suitBadge s0 = false)
  ∧ (rank card ≠ EIGHT →
     filter (λ c, id c ≠ id card) (hand target s) ≠ [] →
     suitBadge (playCard card target s) = false)
  ∧ suitBadge (selectSuit chosen (playCard card player s))
    = bool_decide (chosen ≠ suit card).
Proof.
  split_and!.
  - intros s0 (top & Hpile & Hsuit & _)%initGame_Some_shape.
    unfold suitBadge. rewrite Hsuit, Hpile. simpl.
    apply bool_decide_eq_false_2. by intros Hne.
  - intros Hrank Hrest. rewrite (playCard_continues _ _ _ Hrest).
    unfold suitBadge. cbn [currentSuit discardPile]. rewrite last_snoc.
    rewrite (bool_decide_eq_false_2 (rank card = EIGHT ∧ target = ai))
      by (by intros [? _]).
    apply bool_decide_eq_false_2. by intros Hne.
  - unfold suitBadge, selectSuit. cbn [currentSuit discardPile].
    rewrite playCard_discardPile, last_snoc. simpl.
    apply bool_decide_ext. split; intros Hne; congruence.
Qed.

Lemma dispatch_flow fuel a s s' :
  ¬ isStart a → dispatch fuel a s = Some s' →
  deck s' `prefix_of` deck s
  ∧ discardPile s `prefix_of` discardPile s'
  ∧ difficulty s' = difficulty s.
Proof.
  intros Hstart. destruct a as [rnd d|target|card target|suit]; simpl.
  - by destruct Hstart.
  - unfold drawCard.
    destruct (deck s) as [|drawn newDeck _] eqn:Hdeck using rev_ind.
    + simpl. by intros [= <-].
    + rewrite bool_decide_eq_false_2 by (rewrite length_app; simpl; lia).
      rewrite pop_snoc. cbn [mbind option_bind].
      destruct (canPlay _ _ _) as [ok|]; [|done].
      cbn [mbind option_bind]. intros [= <-]. simpl.
      split; [by apply prefix_app_r|done].
  - intros [= <-].
    rewrite playCard_deck, playCard_discardPile.
    split; [done|]. split; [by apply prefix_app_r|].
    unfold playCard. by case_bool_decide.
  - by intros [= <-].
Qed.

(** X14. Between two deals cards move one way only: after any sequence of
    Draw, Play and ChooseSuit actions the deck is an initial part of what it
    was, the discard pile still begins with what it held, and the difficulty
    is the same.  The discard pile is never turned back into the deck. *)
Theorem cards_flow_one_way (fuel : nat) (acts : list Action)
    (s s' : GameState) :
  Forall (λ a, ¬ isStart a) acts →
  run fuel acts s = Some s' →
  deck s' `prefix_of` deck s
  ∧ discardPile s `prefix_of` discardPile s'
  ∧ difficulty s' = difficulty s.
Proof.
  intros Hacts. revert s. induction Hacts as [|a acts Ha Hacts IH]; intros s.
  - by intros [= <-].
  - cbn [run]. destruct (dispatch fuel a s) as [s1|] eqn:Hstep; [|done].
    cbn [mbind option_bind]. intros Hrun.
    destruct (dispatch_flow fuel a s s1 Ha Hstep) as (Hd & Hp & Hl).
    destruct (IH s1 Hrun) as (Hd' & Hp' & Hl').
    split_and!; [by etrans|by etrans|congruence].
Qed.

(** X15. In a state that holds the 52 cards, playing a card of the target's
    hand removes that card and no other from the hand and puts it on top of
    the discard pile. *)
Theorem playCard_removes_the_card (card : Card) (target : Side)
    (s : GameState) :
  conserved s →
  card ∈ hand target s →
  hand target s ≡ₚ card :: hand target (playCard card target s)
  ∧ (card ∉ hand target (playCard card target s))
  ∧ length (hand target (playCard card target s)) + 1
    = length (hand target s)
  ∧ last (discardPile (playCard card target s)) = Some card.
Proof.
  intros Hinv Hin. pose proof (conserved_NoDup s Hinv) as Hnodup.
  destruct Hinv as [Hperm _].
  assert (Hsub : hand target s ⊆ createDeck).
  { intros c Hc. rewrite <- Hperm. unfold allCards.
    rewrite !elem_of_app. destruct target; simpl in Hc; auto. }
  assert (Hnd : NoDup (hand target s)).
  { unfold allCards in Hnodup.
    apply NoDup_app in Hnodup as (_ & _ & Hnodup).
    apply NoDup_app in Hnodup as (Hp & _ & Hnodup).
    apply NoDup_app in Hnodup as (Ha & _ & _). by destruct target. }
  pose proof (filter_id_removes card _ Hnd Hsub Hin) as Hsplit.
  rewrite playCard_hand, playCard_discardPile, last_snoc.
  split_and!; [done| | |done].
  - intros (Hid & _)%list_elem_of_filter. by apply Hid.
  - apply Permutation_length in Hsplit. simpl in Hsplit. lia.
Qed.

(** X16. On an empty discard pile there is no top card to read: [drawCard]
    throws when the drawn card is not an 8, the opponent's filter throws
    when its hand holds a card that is not an 8, and [canPlayerDraw] throws
    on the player's turn when the first card of the hand is not an 8, while
    an 8 is accepted without reading the top card. *)
Theorem empty_discard_pile_throws (target : Side) (s : GameState)
    (newDeck : list Card) (drawn : Card) :
  discardPile s = [] →
  (deck s = newDeck ++ [drawn] →
   (drawCard target s = None ↔ rank drawn ≠ EIGHT))
  ∧ (playableCards s = None ↔ Exists (λ c, rank c ≠ EIGHT) (aiHand s))
  ∧ (isPlayerTurn s = true →
     (canPlayerDraw s = None ↔
      ∃ c rest, playerHand s = c :: rest ∧ rank c ≠ EIGHT)).
Proof.
  intros Hpile. split_and!.
  - intros Hdeck. unfold drawCard.
    rewrite Hdeck, bool_decide_eq_false_2
      by (rewrite length_app; simpl; lia).
    rewrite pop_snoc, Hpile. cbn [mbind option_bind last]. unfold canPlay.
    destruct (decide (rank drawn = EIGHT)) as [He|He].
    + rewrite (bool_decide_eq_true_2 _ He). cbn [mbind option_bind].
      split; [done|]. by intros Hne.
    + rewrite (bool_decide_eq_false_2 _ He). by cbn [mbind option_bind].
  - unfold playableCards. rewrite Hpile. cbn [last].
    induction (aiHand s) as [|c l IH]; cbn [filterThrowing].
    + split; [done|]. by intros ?%Exists_nil.
    + change (aiCandidate s None c)
        with (if bool_decide (rank c = EIGHT) then Some true else None).
      rewrite Exists_cons.
      destruct (decide (rank c = EIGHT)) as [Hc|Hc];
        [rewrite (bool_decide_eq_true_2 _ Hc)
        |rewrite (bool_decide_eq_false_2 _ Hc)];
        cbn [mbind option_bind].
      * destruct (filterThrowing _ l) as [rest|]; cbn [mbind option_bind].
        -- split; [done|]. intros [?|Hl]; [done|]. by apply IH in Hl.
        -- split; [|done]. intros _. right. by apply IH.
      * split; [|done]. intros _. by left.
  - intros Hturn. unfold canPlayerDraw. rewrite Hturn, Hpile. cbn [negb last].
    destruct (playerHand s) as [|c rest]; cbn [someThrowing].
    + split; [done|]. by intros (? & ? & ? & _).
    + change (handCandidate s None c)
        with (if bool_decide (rank c = EIGHT) then Some true else None).
      destruct (decide (rank c = EIGHT)) as [Hc|Hc];
        [rewrite (bool_decide_eq_true_2 _ Hc)
        |rewrite (bool_decide_eq_false_2 _ Hc)];
        cbn [mbind option_bind fmap option_fmap option_map].
      * split; [done|]. intros (c' & rest' & [= <- <-] & Hne). done.
      * split; [|done]. intros _. by exists c, rest.
Qed.

(** ** Whole sessions *)

Lemma conserved_top s :
  conserved s → ∃ pile top, discardPile s = pile ++ [top].
Proof.
  intros [_ Hpile].
  destruct (discardPile s) as [|top pile _] using rev_ind; [done|].
  by exists pile, top.
Qed.

Lemma initGame_sound fuel rnd level :
  4 ≤ fuel → ∃ s, initGame fuel rnd level = Some s ∧ sound s.
Proof.
  intros Hfuel.
  destruct (initGame_shape fuel rnd level Hfuel)
    as (pre & c & eights & Hrest & _ & _ & Hinit).
  eexists. split; [exact Hinit|]. clear Hinit.
  pose proof (shuffle_Permutation rnd createDeck) as Hperm.
  set (shuffled := shuffle rnd createDeck) in *. clearbody shuffled.
  assert (Hlen : length shuffled = 52)
    by (by rewrite Hperm, createDeck_length).
  unfold sound, midGame. cbn [status]. split_and!.
  - split; [|discriminate]. unfold allCards.
    cbn [deck playerHand aiHand discardPile].
    etrans; [|exact Hperm]. by apply deal_Permutation.
  - by eexists.
  - done.
  - cbn [playerHand]. intros Hnil. apply (f_equal length) in Hnil.
    rewrite length_take, Hlen in Hnil. done.
  - cbn [aiHand]. intros Hnil. apply (f_equal length) in Hnil.
    rewrite length_take, length_drop, Hlen in Hnil. done.
Qed.

Lemma hand_other_midGame target s :
  midGame s → hand target s ≠ [] ∧ hand (other target) s ≠ [].
Proof. intros (_ & Hp & Ha). by destruct target. Qed.

Lemma playCard_sound card target s :
  sound s → status s = playing → card ∈ hand target s →
  sound (playCard card target s).
Proof.
  intros Hsound Hstatus Hin. unfold sound in Hsound.
  rewrite Hstatus in Hsound. destruct Hsound as (Hcons & Hsuit & Hmid).
  pose proof (playCard_conserved card target s Hcons Hin) as Hcons'.
  pose proof (playCard_hand card target s) as Hhand.
  pose proof (playCard_hand_other card target s) as Hother.
  pose proof (playCard_discardPile card target s) as Hpile.
  destruct (hand_other_midGame target s Hmid) as [_ Hothers].
  destruct Hmid as (Hwinner & _ & _).
  destruct (decide (filter (λ c, id c ≠ id card) (hand target s) = []))
    as [Hempty|Hrest].
  - assert (Hrec : status (playCard card target s) = game_over
                   ∧ winner (playCard card target s) = Some target
                   ∧ currentSuit (playCard card target s) = currentSuit s).
    { unfold playCard. by rewrite Hempty. }
    destruct Hrec as (Hst & Hw & Hcs). unfold sound. rewrite Hst.
    split_and!; [done|by rewrite Hcs|].
    exists target. split_and!; [done|by rewrite Hhand|by rewrite Hother].
  - assert (Hrec : status (playCard card target s)
                   = (if bool_decide (rank card = EIGHT ∧ target = player)
                      then choosing_suit else playing)
                   ∧ winner (playCard card target s) = winner s
                   ∧ is_Some (currentSuit (playCard card target s))
                   ∧ turn (playCard card target s) = other target).
    { rewrite (playCard_continues card target s Hrest). simpl.
      split_and!; try done. }
    destruct Hrec as (Hst & Hw & Hcs & Hturn).
    assert (Hmid' : midGame (playCard card target s)).
    { split; [by rewrite Hw|].
      destruct target; simpl in *; rewrite Hhand, Hother; done. }
    unfold sound. rewrite Hst. case_bool_decide as Height.
    + destruct Height as [Height ->].
      split_and!; [done..|].
      exists card. by rewrite Hpile, last_snoc.
    + by split_and!.
Qed.

Lemma drawCard_sound target s :
  sound s → status s = playing →
  ∃ s', drawCard target s = Some s' ∧ sound s'.
Proof.
  intros Hsound Hstatus. unfold sound in Hsound.
  rewrite Hstatus in Hsound. destruct Hsound as (Hcons & Hsuit & Hmid).
  destruct (drawCard_conserved target s Hcons) as (s' & Hdraw & Hcons').
  exists s'. split; [done|].
  destruct (conserved_top s Hcons) as (pile & top & Hpile).
  destruct Hmid as (Hwinner & Hp & Ha).
  assert (Hrec : status s' = playing ∧ winner s' = None
                 ∧ currentSuit s' = currentSuit s
                 ∧ playerHand s' ≠ [] ∧ aiHand s' ≠ []).
  { destruct (deck s) as [|drawn newDeck _] eqn:Hdeck using rev_ind.
    - rewrite (drawCard_empty target s Hdeck) in Hdraw.
      injection Hdraw as <-. by simpl.
    - rewrite (drawCard_draws target s newDeck drawn pile top Hdeck Hpile)
        in Hdraw.
      injection Hdraw as <-. simpl. split_and!; try done.
      + destruct target; [|done]. by destruct (playerHand s).
      + destruct target; [done|]. by destruct (aiHand s). }
  destruct Hrec as (Hst & Hw & Hcs & Hp' & Ha').
  unfold sound. rewrite Hst. split_and!; try done. by rewrite Hcs.
Qed.

Lemma selectSuit_sound suit s :
  sound s → status s = choosing_suit → sound (selectSuit suit s).
Proof.
  intros Hsound Hstatus. unfold sound in Hsound.
  rewrite Hstatus in Hsound.
  destruct Hsound as (Hcons & _ & Hmid & _).
  unfold sound. cbn [status selectSuit].
  split_and!; [by apply selectSuit_conserved|by eexists|done].
Qed.

Lemma isPlayable_playing state card :
  isPlayable state card = true → status state = playing.
Proof.
  unfold isPlayable, isPlayerTurn.
  intros (Hturn & _)%andb_true_iff.
  apply andb_true_iff in Hturn as [_ Hstatus].
  by apply bool_decide_eq_true in Hstatus.
Qed.

Lemma handle_sound fuel intent s :
  4 ≤ fuel → sound s →
  ∃ s', handle fuel intent s = Some s' ∧ sound s'.
Proof.
  intros Hfuel Hsound.
  destruct intent as [rnd| |d|i| |suit|r]; cbn [handle].
  - by apply initGame_sound.
  - eexists. split; [done|]. unfold sound. cbn [status goToHome]. done.
  - eexists. split; [done|]. case_bool_decide as Hwait; [|done].
    unfold sound in *. cbn [status setDifficulty]. by rewrite Hwait in *.
  - destruct (playerHand s !! i) as [card|] eqn:Hcard;
      (eexists; split; [done|]); [|done].
    unfold clickCard. destruct (isPlayable s card) eqn:Hplayable; [|done].
    apply (playCard_sound card player s); [done| |].
    + by eapply isPlayable_playing.
    + by eapply list_elem_of_lookup_2.
  - unfold clickDeck.
    destruct (decide (status s = playing)) as [Hstatus|Hstatus].
    + pose proof Hsound as Hs. unfold sound in Hs. rewrite Hstatus in Hs.
      destruct Hs as (Hcons & _).
      destruct (conserved_top s Hcons) as (pile & top & Hpile).
      rewrite (canPlayerDraw_top s pile top Hpile).
      cbn [mbind option_bind].
      destruct (_ && _); [by apply drawCard_sound|by exists s].
    + unfold canPlayerDraw, isPlayerTurn.
      rewrite (bool_decide_eq_false_2 (status s = playing)) by done.
      rewrite andb_false_r. by exists s.
  - eexists. split; [done|]. unfold clickSuit.
    case_bool_decide as Hchoosing; [|done]. by apply selectSuit_sound.
  - unfold aiTurn.
    destruct (decide (status s = playing)) as [Hstatus|Hstatus].
    2:{ rewrite (bool_decide_eq_false_2 (status s = playing)) by done.
        by exists s. }
    rewrite (bool_decide_eq_true_2 (status s = playing)) by done.
    case_bool_decide as Hturn; cbn [andb]; [|by exists s].
    pose proof Hsound as Hs. unfold sound in Hs. rewrite Hstatus in Hs.
    destruct Hs as (Hcons & _).
    destruct (conserved_top s Hcons) as (pile & top & Hpile).
    destruct (decide (Exists (λ c, isPlayable_spec c top (currentSuit s))
                             (aiHand s))) as [Hsome|Hnone].
    + destruct (proj2 (aiMove_draws_or_plays r s pile top Hpile) Hsome)
        as (c & -> & Hc & _). cbn [mbind option_bind].
      eexists. split; [done|]. by apply (playCard_sound c ai s).
    + apply (not_Exists_Forall _) in Hnone.
      rewrite (proj1 (aiMove_draws_or_plays r s pile top Hpile))
        by (eapply Forall_impl; [exact Hnone|done]).
      cbn [mbind option_bind]. by apply drawCard_sound.
Qed.

Lemma session_sound fuel intents :
  4 ≤ fuel →
  ∀ s, sound s → ∃ s', session fuel intents s = Some s' ∧ sound s'.
Proof.
  intros Hfuel. induction intents as [|intent intents IH]; intros s Hsound.
  - by exists s.
  - destruct (handle_sound fuel intent s Hfuel Hsound) as (s1 & Hs1 & Hsound1).
    destruct (IH s1 Hsound1) as (s' & Hrun & Hsound').
    exists s'. split; [|done]. cbn [session]. by rewrite Hs1.
Qed.

Lemma initialState_sound : sound initialState.
Proof. reflexivity. Qed.

(** X17. A session, any sequence of button and card clicks and timer
    callbacks from the state the application starts in, never throws, and
    in every state it reaches outside the start screen the four piles hold
    exactly the 52 cards of [createDeck], a card lies on the discard pile
    and the current suit is set. *)
Theorem session_keeps_the_cards (fuel : nat) (intents : list Intent) :
  4 ≤ fuel →
  ∃ s, session fuel intents initialState = Some s
       ∧ (status s ≠ waiting →
          allCards s ≡ₚ createDeck
          ∧ NoDup (allCards s)
          ∧ length (deck s) + length (playerHand s) + length (aiHand s)
            + length (discardPile s) = 52
          ∧ discardPile s ≠ []
          ∧ is_Some (currentSuit s)).
Proof.
  intros Hfuel.
  destruct (session_sound fuel intents Hfuel _ initialState_sound)
    as (s & Hrun & Hsound).
  exists s. split; [done|]. intros Hstatus.
  assert (Hboth : conserved s ∧ is_Some (currentSuit s)).
  { unfold sound in Hsound. destruct (status s); [done|..]; tauto. }
  destruct Hboth as [Hcons Hsuit].
  split_and!; [apply Hcons| | |apply Hcons|done].
  - by apply conserved_NoDup.
  - by apply conserved_sizes.
Qed.

(** X18. In every state a session reaches, a winner is recorded exactly
    when the status is [game_over]; the winner's hand is then empty and the
    other hand is not; and while the status is [playing] or [choosing_suit]
    both sides hold cards. *)
Theorem session_winner_iff_game_over (fuel : nat) (intents : list Intent)
    (s : GameState) :
  4 ≤ fuel →
  session fuel intents initialState = Some s →
  (status s = game_over ↔ winner s ≠ None)
  ∧ (∀ w, winner s = Some w → hand w s = [] ∧ hand (other w) s ≠ [])
  ∧ (status s = playing ∨ status s = choosing_suit →
     playerHand s ≠ [] ∧ aiHand s ≠ []).
Proof.
  intros Hfuel Hrun.
  destruct (session_sound fuel intents Hfuel _ initialState_sound)
    as (s' & Hrun' & Hsound).
  rewrite Hrun in Hrun'. injection Hrun' as <-.
  unfold sound, midGame in Hsound.
  destruct (status s) eqn:Hstatus.
  - rewrite Hsound. split_and!; [split; done|done|intros [?|?]; done].
  - destruct Hsound as (_ & _ & Hw & Hp & Ha). rewrite Hw.
    split_and!; [split; done|done|done].
  - destruct Hsound as (_ & _ & (Hw & Hp & Ha) & _). rewrite Hw.
    split_and!; [split; done|done|done].
  - destruct Hsound as (_ & _ & w & Hw & Hempty & Hother). rewrite Hw.
    split_and!; [split; done| |intros [?|?]; done].
    by intros w' [= <-].
Qed.

(** X19. A session is in status [choosing_suit] only with an 8 on top of
    the discard pile and the turn already set to the opponent. *)
Theorem session_chooses_suit_on_an_eight (fuel : nat)
    (intents : list Intent) (s : GameState) :
  4 ≤ fuel →
  session fuel intents initialState = Some s →
  status s = choosing_suit →
  turn s = ai
  ∧ ∃ top, last (discardPile s) = Some top ∧ rank top = EIGHT.
Proof.
  intros Hfuel Hrun Hstatus.
  destruct (session_sound fuel intents Hfuel _ initialState_sound)
    as (s' & Hrun' & Hsound).
  rewrite Hrun in Hrun'. injection Hrun' as <-.
  unfold sound in Hsound. rewrite Hstatus in Hsound. tauto.
Qed.

(** * The further properties on the sample games *)

Lemma shuffle_permutes_witness :
  NoDup (shuffle alwaysFirst createDeck).
Proof.
  apply (proj2 (proj2 (shuffle_permutes alwaysFirst createDeck))).
  apply (bool_decide_unpack _). vm_compute. exact I.
Defined.

Lemma shuffle_fixed_points_witness :
  shuffle alwaysSelf createDeck = createDeck
  ∧ shuffle alwaysFirst [makeCard HEARTS ACE] = [makeCard HEARTS ACE].
Proof.
  split.
  - apply (proj1 (shuffle_fixed_points alwaysSelf createDeck)).
    intros i. apply Nat.mod_small. lia.
  - apply (proj2 (shuffle_fixed_points alwaysFirst [makeCard HEARTS ACE])).
    simpl. lia.
Defined.

Lemma shuffle_reaches_every_order_witness :
  ∃ rnd, shuffle rnd [makeCard HEARTS ACE; makeCard SPADES KING;
                      makeCard CLUBS TWO]
         = [makeCard CLUBS TWO; makeCard HEARTS ACE; makeCard SPADES KING].
Proof.
  apply shuffle_reaches_every_order.
  apply (bool_decide_unpack _). vm_compute. exact I.
Defined.

Lemma aiMove_is_legal_witness :
  ∃ move, aiMove 0 easyGame = Some move
    ∧ match move with
      | DrawCard =>
          Forall (λ c, ¬ isPlayable_spec c (makeCard DIAMONDS FIVE)
                           (currentSuit easyGame))
                 (aiHand easyGame)
      | PlayCard c =>
          c ∈ aiHand easyGame
          ∧ isPlayable_spec c (makeCard DIAMONDS FIVE)
              (currentSuit easyGame)
      end.
Proof.
  apply (aiMove_is_legal 0 easyGame [makeCard DIAMONDS SEVEN]
           (makeCard DIAMONDS FIVE) eq_refl).
Defined.

Lemma normal_prefers_first_non_eight_witness :
  aiMove 0 normalGame = Some (PlayCard (makeCard CLUBS FIVE)).
Proof.
  apply (proj1 (normal_prefers_first_non_eight 0 normalGame
                  [makeCard DIAMONDS SEVEN] (makeCard DIAMONDS FIVE)
                  eq_refl eq_refl)
           [] (makeCard CLUBS FIVE)
           [makeCard HEARTS FIVE; makeCard SPADES EIGHT]).
  - vm_compute. reflexivity.
  - constructor.
  - discriminate.
Defined.

Lemma easy_picks_any_playable_witness :
  aiMove 1 easyGame = Some (PlayCard (makeCard HEARTS FIVE))
  ∧ ∃ r, aiMove r easyGame = Some (PlayCard (makeCard SPADES EIGHT)).
Proof.
  split.
  - apply (proj1 (easy_picks_any_playable 1 easyGame
                    [makeCard DIAMONDS SEVEN] (makeCard DIAMONDS FIVE)
                    eq_refl eq_refl)).
    vm_compute. reflexivity.
  - apply (proj2 (easy_picks_any_playable 0 easyGame
                    [makeCard DIAMONDS SEVEN] (makeCard DIAMONDS FIVE)
                    eq_refl eq_refl)).
    + apply (bool_decide_unpack _). vm_compute. exact I.
    + by left.
Defined.

Lemma aiTurn_outcome_witness :
  ∃ state', aiTurn 0 hardGame = Some state'
    ∧ playerHand state' = playerHand hardGame
    ∧ difficulty state' = difficulty hardGame
    ∧ (status state' = playing ∧ winner state' = winner hardGame
       ∨ status state' = game_over ∧ winner state' = Some ai
         ∧ aiHand state' = []).
Proof.
  apply (aiTurn_outcome 0 hardGame [makeCard DIAMONDS SEVEN]
           (makeCard DIAMONDS FIVE) eq_refl eq_refl eq_refl).
Defined.

Lemma draw_enabled_iff_no_card_enabled_witness :
  ∃ enabled,
    canPlayerDraw stalemate = Some enabled
    ∧ (enabled = true ↔
       isPlayerTurn stalemate = true
       ∧ Forall (λ c, isPlayable stalemate c = false)
                (playerHand stalemate))
    ∧ (isPlayerTurn stalemate = true → enabled = false →
       Exists (λ c, isPlayable stalemate c = true) (playerHand stalemate)).
Proof.
  apply (draw_enabled_iff_no_card_enabled stalemate
           [makeCard DIAMONDS SEVEN] (makeCard DIAMONDS FIVE) eq_refl).
Defined.

Lemma exhausted_deck_stalemate_witness :
  ∃ passed, clickDeck stalemate = Some passed
            ∧ turn passed = ai
            ∧ aiTurn 0 passed = Some stalemate.
Proof.
  apply (exhausted_deck_stalemate 0 stalemate [makeCard DIAMONDS SEVEN]
           (makeCard DIAMONDS FIVE) eq_refl eq_refl eq_refl eq_refl).
  - apply (bool_decide_unpack _). vm_compute. exact I.
  - apply (bool_decide_unpack _). vm_compute. exact I.
Defined.

Lemma only_restart_moves_on_witness :
  handle 4 (ClickCard 0) (goToHome dealt) = Some (goToHome dealt)
  ∧ handle 4 (AiTimer 0) (goToHome hardGame) = Some (goToHome hardGame).
Proof.
  split.
  - apply (proj2 (only_restart_moves_on 4 (ClickCard 0) dealt
                    ltac:(discriminate) ltac:(discriminate)
                    ltac:(discriminate))).
  - apply (proj2 (only_restart_moves_on 4 (AiTimer 0) hardGame
                    ltac:(discriminate) ltac:(discriminate)
                    ltac:(discriminate))).
Defined.

Lemma eight_then_suit_witness :
  status (clickCard (makeCard HEARTS EIGHT) dealt) = choosing_suit
  ∧ turn (clickCard (makeCard HEARTS EIGHT) dealt) = ai
  ∧ handle 4 (AiTimer 0) (clickCard (makeCard HEARTS EIGHT) dealt)
    = Some (clickCard (makeCard HEARTS EIGHT) dealt)
  ∧ currentSuit (clickSuit CLUBS (clickCard (makeCard HEARTS EIGHT) dealt))
    = Some CLUBS.
Proof.
  destruct (eight_then_suit 4 0 0 (makeCard HEARTS EIGHT) CLUBS dealt)
    as (Hstatus & Hturn & _ & Htimer & _ & _ & _ & _ & Hsuit & _).
  - vm_compute. reflexivity.
  - reflexivity.
  - vm_compute. discriminate.
  - by split_and!.
Defined.

Lemma suit_badge_shows_overridden_suit_witness :
  suitBadge dealt = false
  ∧ suitBadge (playCard (makeCard HEARTS TWO) player dealt) = false.
Proof.
  destruct (suit_badge_shows_overridden_suit 4 alwaysFirst normal
              (makeCard HEARTS TWO) player CLUBS dealt)
    as (Hdeal & Hplay & _).
  split.
  - apply Hdeal. vm_compute. reflexivity.
  - apply Hplay; [discriminate|]. vm_compute. discriminate.
Defined.

Lemma cards_flow_one_way_witness :
  deck afterSixDraws `prefix_of` deck dealt
  ∧ discardPile dealt `prefix_of` discardPile afterSixDraws
  ∧ difficulty afterSixDraws = difficulty dealt.
Proof.
  apply (cards_flow_one_way 4 sixDraws dealt afterSixDraws).
  - repeat constructor; by intros [].
  - vm_compute. reflexivity.
Defined.

Lemma playCard_removes_the_card_witness :
  hand player dealt
  ≡ₚ makeCard HEARTS FIVE
     :: hand player (playCard (makeCard HEARTS FIVE) player dealt)
  ∧ (makeCard HEARTS FIVE
     ∉ hand player (playCard (makeCard HEARTS FIVE) player dealt))
  ∧ length (hand player (playCard (makeCard HEARTS FIVE) player dealt)) + 1
    = length (hand player dealt)
  ∧ last (discardPile (playCard (makeCard HEARTS FIVE) player dealt))
    = Some (makeCard HEARTS FIVE).
Proof.
  apply (playCard_removes_the_card (makeCard HEARTS FIVE) player dealt).
  - split.
    + apply (bool_decide_unpack _). vm_compute. exact I.
    + discriminate.
  - apply (bool_decide_unpack _). vm_compute. exact I.
Defined.

Lemma empty_discard_pile_throws_witness :
  drawCard player
    (mkState [makeCard SPADES ACE] [] [] [] None player playing None normal)
  = None.
Proof.
  apply (proj1 (empty_discard_pile_throws player
                  (mkState [makeCard SPADES ACE] [] [] [] None player
                           playing None normal)
                  [] (makeCard SPADES ACE) eq_refl) eq_refl).
  discriminate.
Defined.

Lemma session_keeps_the_cards_witness :
  ∃ s, session 4 heartsSession initialState = Some s
       ∧ (status s ≠ waiting →
          allCards s ≡ₚ createDeck
          ∧ NoDup (allCards s)
          ∧ length (deck s) + length (playerHand s) + length (aiHand s)
            + length (discardPile s) = 52
          ∧ discardPile s ≠ []
          ∧ is_Some (currentSuit s)).
Proof. apply (session_keeps_the_cards 4 heartsSession). lia. Defined.

Lemma session_winner_iff_game_over_witness :
  ∃ s, session 4 heartsSession initialState = Some s
       ∧ status s = game_over
       ∧ winner s = Some player
       ∧ hand player s = [] ∧ hand ai s ≠ [].
Proof.
  eexists. split; [vm_compute; reflexivity|].
  match goal with
  | |- context [status ?s] =>
      destruct (session_winner_iff_game_over 4 heartsSession s)
        as (_ & Hwin & _); [lia|vm_compute; reflexivity|]
  end.
  split; [reflexivity|]. split; [reflexivity|].
  apply (Hwin player). reflexivity.
Defined.

Lemma session_chooses_suit_on_an_eight_witness :
  ∃ s, session 4 eightSession initialState = Some s
       ∧ turn s = ai
       ∧ ∃ top, last (discardPile s) = Some top ∧ rank top = EIGHT.
Proof.
  eexists. split; [vm_compute; reflexivity|].
  match goal with
  | |- context [turn ?s] =>
      apply (session_chooses_suit_on_an_eight 4 eightSession s);
        [lia|vm_compute; reflexivity|reflexivity]
  end.
Defined.
